(** * github-release-downloader: a shallow embedding and its properties

    The Go package [githubreleasedownloader] resolves a GitHub release,
    selects the assets of the running platform, downloads them, optionally
    unpacks them and keeps a small version record in the cache directory.

    Go strings are byte sequences: they are modelled by [string] (a list of
    8-bit [ascii] characters).  The file system is a finite map from cleaned
    path names to nodes; the network, the GitHub API, the archive decoders
    and the goroutine scheduler are oracles gathered in an environment
    record.  Every function of the package is a function from a world to a
    world and a result.

    What the embedding leaves out: the zap logger and the progress bar
    (a call that only logs an error is a call whose error is dropped);
    symbolic links are stored but paths are not resolved through them;
    the goroutines of downloadAssets run one after the other, in the order
    in which their results are collected. *)

From Stdlib Require Import ZArith NArith Ascii String List Bool Lia Permutation.
From stdpp Require Import gmap strings list fin_maps.

Open Scope Z_scope.

#[local] Set Warnings "-register-all".

(** ** The Go standard library, as far as the package uses it *)

Module GoStrings.

(** [strings.ToLower] on the bytes 'A'..'Z'; other bytes are kept.  On a
    string that holds only ASCII bytes this is what Go computes. *)
Definition lowerByte (c : ascii) : ascii :=
  let n := nat_of_ascii c in
  if ((65 <=? n) && (n <=? 90))%nat then ascii_of_nat (n + 32) else c.

Fixpoint ToLower (s : string) : string :=
  match s with
  | EmptyString => EmptyString
  | String c r => String (lowerByte c) (ToLower r)
  end.

(** [strings.HasPrefix s prefix]. *)
Fixpoint HasPrefix (s prefix : string) {struct prefix} : bool :=
  match prefix, s with
  | EmptyString, _ => true
  | String _ _, EmptyString => false
  | String a p', String b s' => Ascii.eqb a b && HasPrefix s' p'
  end.

Fixpoint dropBytes (n : nat) (s : string) : string :=
  match n, s with
  | O, _ => s
  | S _, EmptyString => EmptyString
  | S n', String _ r => dropBytes n' r
  end.

Fixpoint takeBytes (n : nat) (s : string) : string :=
  match n, s with
  | O, _ => EmptyString
  | S _, EmptyString => EmptyString
  | S n', String c r => String c (takeBytes n' r)
  end.

(** [strings.HasSuffix s suffix]: [len(s) >= len(suffix)] and the tail of
    [s] of that length is [suffix]. *)
Definition HasSuffix (s suffix : string) : bool :=
  (String.length suffix <=? String.length s)%nat
  && String.eqb (dropBytes (String.length s - String.length suffix) s) suffix.

(** [strings.TrimPrefix] and [strings.TrimSuffix] remove one occurrence. *)
Definition TrimPrefix (s prefix : string) : string :=
  if HasPrefix s prefix then dropBytes (String.length prefix) s else s.

Definition TrimSuffix (s suffix : string) : string :=
  if HasSuffix s suffix
  then takeBytes (String.length s - String.length suffix) s
  else s.

(** [strings.Contains s substr]: [substr] starts at some index of [s]. *)
Fixpoint Contains (s substr : string) : bool :=
  HasPrefix s substr
  || match s with
     | EmptyString => false
     | String _ r => Contains r substr
     end.

(** [strings.Split s "/"]. *)
Fixpoint SplitSlash (s : string) : list string :=
  match s with
  | EmptyString => [EmptyString]
  | String c r =>
      if Ascii.eqb c "/" then EmptyString :: SplitSlash r
      else match SplitSlash r with
           | h :: t => String c h :: t
           | [] => [String c EmptyString]
           end
  end.

(** [strings.Join elems "/"]. *)
Fixpoint JoinSlash (elems : list string) : string :=
  match elems with
  | [] => EmptyString
  | [e] => e
  | e :: rest => e +:+ "/" +:+ JoinSlash rest
  end.

End GoStrings.

Module Filepath.
Import GoStrings.

(** [filepath.Ext]: the loop walks the path from its last byte towards the
    first one, stops at a separator and returns [path[i:]] at the first dot
    it meets.  [suffix] is [path[i+1:]]. *)
Fixpoint extScan (rev_path : list ascii) (suffix : string) : string :=
  match rev_path with
  | [] => EmptyString
  | c :: r =>
      if Ascii.eqb c "/" then EmptyString
      else if Ascii.eqb c "." then String c suffix
      else extScan r (String c suffix)
  end.

Definition Ext (path : string) : string :=
  extScan (rev (list_ascii_of_string path)) EmptyString.

(** One element of the path in [filepath.Clean]: empty and "." elements are
    dropped, ".." removes the element before it when there is one that is
    not ".." itself, is dropped at the root, and is kept otherwise. *)
Definition cleanStep (rooted : bool) (out : list string) (elem : string)
  : list string :=
  if String.eqb elem "" || String.eqb elem "." then out
  else if String.eqb elem ".." then
    match last out with
    | Some e => if String.eqb e ".." then out ++ [elem] else removelast out
    | None => if rooted then out else [elem]
    end
  else out ++ [elem].

Definition Clean (path : string) : string :=
  if String.eqb path "" then "."
  else
    let rooted := HasPrefix path "/" in
    let out := fold_left (cleanStep rooted) (SplitSlash path) [] in
    if rooted then "/" +:+ JoinSlash out
    else match out with
         | [] => "."
         | _ => JoinSlash out
         end.

(** [filepath.Join a b]: empty leading elements are skipped, what is left is
    joined with the separator and cleaned. *)
Definition Join (a b : string) : string :=
  if negb (String.eqb a "") then Clean (a +:+ "/" +:+ b)
  else if negb (String.eqb b "") then Clean b
  else "".

(** [filepath.Base]: the last element, trailing separators removed. *)
Definition Base (path : string) : string :=
  if String.eqb path "" then "."
  else match last (filter (fun e => negb (String.eqb e "")) (SplitSlash path)) with
       | Some e => e
       | None => "/"
       end.

(** [filepath.Dir]: everything up to the last separator, cleaned. *)
Fixpoint dropLastElem (rev_path : list ascii) : list ascii :=
  match rev_path with
  | [] => []
  | c :: r => if Ascii.eqb c "/" then rev_path else dropLastElem r
  end.

Definition Dir (path : string) : string :=
  Clean (string_of_list_ascii
           (rev (dropLastElem (rev (list_ascii_of_string path))))).

End Filepath.

Import GoStrings Filepath.

(** ** Data model *)

(** [github.ReleaseAsset] and [github.RepositoryRelease]: the getters
    [GetName], [GetSize], [GetBrowserDownloadURL], [GetTagName] return the
    field, or the zero value when the pointer field is nil. *)
Record ReleaseAsset := {
  Name : string;
  Size : Z;
  BrowserDownloadURL : string
}.

Record RepositoryRelease := {
  TagName : string;
  ReleaseName : string;
  Assets : list ReleaseAsset
}.

(** Go errors.  [SysErr] is an error of package os, [LibErr] an error of
    another library (net/http, go-github, gzip, tar, zip), [CtxErr] the
    value of [ctx.Err()], and [Errorf] an error built by [fmt.Errorf]: its
    format, its arguments other than the wrapped error, and the error
    wrapped by [%w] when there is one. *)
Inductive fmtArg := AStr (s : string) | AInt (n : Z).

Inductive error :=
| SysErr (op path errno : string)
| LibErr (lib : string) (code : Z)
| CtxErr
| Errorf (format : string) (args : list fmtArg) (wrapped : option error).

(** [Options] of options.go; [int] fields are [Z], file modes are [N]. *)
Record Options := {
  Concurrency : Z;
  BufferSize : Z;
  CacheDir : string;
  AutoExtract : bool;
  TargetDir : string;
  DownloadSource : bool;
  CheckLatest : bool
}.

(** [downloadResult] of downloader.go. *)
Record downloadResult := {
  filePath : string;
  err : option error
}.

(** What the GitHub client answers: a release, or an error together with
    the HTTP status of the response when there is a response. *)
Inductive apiReply :=
| ApiRelease (r : RepositoryRelease)
| ApiFailure (status : option Z) (e : error).

(** One call of [Read] on a response body: the bytes delivered and the
    error returned with them. *)
Inductive ioStatus := IoNil | IoEOF | IoFail (e : error).

Record Response := {
  StatusCode : Z;
  ContentLength : Z;
  Body : list (string * ioStatus)
}.

(** A decompressed gzip stream: the bytes that come out, and the error that
    ends the stream when it is corrupt. *)
Record gzStream := {
  gzData : string;
  gzErr : option error
}.

(** A tar entry as [tarReader.Next] and the reads that follow deliver it. *)
Inductive tarType := TypeReg | TypeDir | TypeSymlink | TypeLink | TypeOther.

Record tarHeader := {
  hName : string;
  Typeflag : tarType;
  Linkname : string;
  hMode : N;
  hData : string;
  hDataErr : option error
}.

Record tarStream := {
  tarEntries : list tarHeader;
  tarEnd : option error   (* None: io.EOF *)
}.

(** A file of a zip archive. *)
Record zipEntry := {
  zName : string;
  zIsDir : bool;
  zMode : N;
  zOpenErr : option error;
  zData : string;
  zDataErr : option error
}.

(** The environment of a client: the platform, the GitHub API, the HTTP
    transport, the archive decoders, the file-system faults the map model
    does not produce by itself, and the goroutine scheduler.  The API and
    the transport answer by the number of calls made before. *)
Record Env := {
  GOOS : string;
  GOARCH : string;
  GetLatestRelease : nat -> string -> string -> apiReply;
  GetReleaseByTag : nat -> string -> string -> string -> apiReply;
  httpGet : nat -> string -> error + Response;
  gzipNewReader : string -> error + gzStream;
  tarNewReader : gzStream -> tarStream;
  zipOpenReader : string -> error + list zipEntry;
  crossDevice : string -> string -> bool;
  writeFault : string -> nat -> option error;
  collectionOrder : list ReleaseAsset -> list ReleaseAsset;
  collectionOrder_perm : forall l, Permutation (collectionOrder l) l;
  ctxDone : nat -> bool
}.

(** ** The file system *)

Module OS.

Inductive node :=
| File (data : string) (mode : N)
| Directory (mode : N)
| Symlink (target : string).

(** Keys are cleaned paths.  The root and the working directory exist. *)
Definition key (path : string) : string := Clean path.

Definition isRootKey (p : string) : bool :=
  String.eqb p "/" || String.eqb p ".".

Definition lookupNode (fs : gmap string node) (p : string) : option node :=
  if isRootKey p then Some (Directory 493) else fs !! p.

Definition isDirKey (fs : gmap string node) (p : string) : bool :=
  match lookupNode fs p with
  | Some (Directory _) => true
  | _ => false
  end.

(** [under p k]: [k] is [p] or lies below the directory [p]. *)
Definition under (p k : string) : bool :=
  String.eqb k p
  || HasPrefix k (if String.eqb p "/" then "/" else p +:+ "/").

Definition Stat (fs : gmap string node) (path : string)
  : option node * option error :=
  match lookupNode fs (key path) with
  | Some n => (Some n, None)
  | None => (None, Some (SysErr "stat" path "ENOENT"))
  end.

Definition ReadFile (fs : gmap string node) (path : string)
  : string * option error :=
  match lookupNode fs (key path) with
  | Some (File d _) => (d, None)
  | Some (Directory _) => ("", Some (SysErr "read" path "EISDIR"))
  | Some (Symlink _) => ("", Some (SysErr "open" path "ELOOP"))
  | None => ("", Some (SysErr "open" path "ENOENT"))
  end.

(** [os.OpenFile(path, O_WRONLY|O_CREATE|O_TRUNC, perm)]: an existing file
    is emptied and keeps its mode, a new one gets [perm]. *)
Definition openTrunc (fs : gmap string node) (path : string) (perm : N)
  : gmap string node * option error :=
  let p := key path in
  match lookupNode fs p with
  | Some (Directory _) => (fs, Some (SysErr "open" path "EISDIR"))
  | Some (Symlink _) => (fs, Some (SysErr "open" path "ELOOP"))
  | Some (File _ m) => (<[p := File "" m]> fs, None)
  | None =>
      if isDirKey fs (Dir p) then (<[p := File "" perm]> fs, None)
      else (fs, Some (SysErr "open" path "ENOENT"))
  end.

Definition Create (fs : gmap string node) (path : string) :=
  openTrunc fs path 438.

(** Appending to an open file. *)
Definition append (fs : gmap string node) (path data : string)
  : gmap string node :=
  let p := key path in
  match fs !! p with
  | Some (File d m) => <[p := File (d +:+ data) m]> fs
  | _ => fs
  end.

Definition fileSize (fs : gmap string node) (path : string) : nat :=
  match fs !! key path with
  | Some (File d _) => String.length d
  | _ => 0%nat
  end.

Definition Chmod (fs : gmap string node) (path : string) (mode : N)
  : gmap string node * option error :=
  let p := key path in
  match fs !! p with
  | Some (File d _) => (<[p := File d mode]> fs, None)
  | Some (Directory _) => (<[p := Directory mode]> fs, None)
  | Some (Symlink _) => (fs, Some (SysErr "chmod" path "ELOOP"))
  | None => (fs, Some (SysErr "chmod" path "ENOENT"))
  end.

(** [os.Mkdir] of each missing element in turn, from the outermost one. *)
Fixpoint mkdirs (fs : gmap string node) (cur : string) (elems : list string)
  (perm : N) : gmap string node * option error :=
  match elems with
  | [] => (fs, None)
  | e :: rest =>
      let p := if String.eqb cur "" then e
               else if String.eqb cur "/" then "/" +:+ e
               else cur +:+ "/" +:+ e in
      match fs !! p with
      | Some (Directory _) => mkdirs fs p rest perm
      | Some _ => (fs, Some (SysErr "mkdir" p "ENOTDIR"))
      | None => mkdirs (<[p := Directory perm]> fs) p rest perm
      end
  end.

(** [os.MkdirAll]: the fast path answers from [Stat] of the path itself;
    otherwise the parents are made first. *)
Definition MkdirAll (fs : gmap string node) (path : string) (perm : N)
  : gmap string node * option error :=
  let p := key path in
  match lookupNode fs p with
  | Some (Directory _) => (fs, None)
  | Some _ => (fs, Some (SysErr "mkdir" path "ENOTDIR"))
  | None =>
      mkdirs fs (if HasPrefix p "/" then "/" else "")
        (filter (fun e => negb (String.eqb e "")) (SplitSlash p)) perm
  end.

Definition Symlink_ (fs : gmap string node) (oldname newname : string)
  : gmap string node * option error :=
  let p := key newname in
  match lookupNode fs p with
  | Some _ => (fs, Some (SysErr "symlink" newname "EEXIST"))
  | None =>
      if isDirKey fs (Dir p) then (<[p := Symlink oldname]> fs, None)
      else (fs, Some (SysErr "symlink" newname "ENOENT"))
  end.

Definition Link (fs : gmap string node) (oldname newname : string)
  : gmap string node * option error :=
  let p := key newname in
  match lookupNode fs (key oldname) with
  | Some (File d m) =>
      match lookupNode fs p with
      | Some _ => (fs, Some (SysErr "link" newname "EEXIST"))
      | None =>
          if isDirKey fs (Dir p) then (<[p := File d m]> fs, None)
          else (fs, Some (SysErr "link" newname "ENOENT"))
      end
  | Some _ => (fs, Some (SysErr "link" oldname "EPERM"))
  | None => (fs, Some (SysErr "link" oldname "ENOENT"))
  end.

Definition RemoveAll (fs : gmap string node) (path : string)
  : gmap string node * option error :=
  (filter (fun kv => negb (under (key path) kv.1)) fs, None).

(** [os.Rename]: the node and everything below it change their prefix. *)
Definition rekey (o n k : string) : string :=
  n +:+ dropBytes (String.length o) k.

Definition Rename (exdev : string -> string -> bool)
  (fs : gmap string node) (oldpath newpath : string)
  : gmap string node * option error :=
  let o := key oldpath in
  let n := key newpath in
  if exdev o n then (fs, Some (SysErr "rename" oldpath "EXDEV"))
  else match fs !! o with
  | None => (fs, Some (SysErr "rename" oldpath "ENOENT"))
  | Some _ =>
      if String.eqb o n then (fs, None)
      else if under o n then (fs, Some (SysErr "rename" oldpath "EINVAL"))
      else if negb (isDirKey fs (Dir n))
      then (fs, Some (SysErr "rename" newpath "ENOENT"))
      else if isDirKey fs n
      then (fs, Some (SysErr "rename" newpath "EEXIST"))
      else
        let kept := filter (fun kv => negb (under o kv.1 || under n kv.1)) fs in
        let moved :=
          map_fold (fun k v acc =>
                      if under o k then <[rekey o n k := v]> acc else acc)
                   ∅ fs in
        (moved ∪ kept, None)
  end.

(** [os.ReadDir]: the names in a directory, sorted. *)
Fixpoint insertSorted (x : string) (l : list string) : list string :=
  match l with
  | [] => [x]
  | y :: r => if String.leb x y then x :: l else y :: insertSorted x r
  end.

Definition ReadDir (fs : gmap string node) (path : string)
  : list string * option error :=
  let p := key path in
  if isDirKey fs p then
    (foldr insertSorted []
       (Base <$> filter (fun k => negb (String.eqb k p) && String.eqb (Dir k) p)
                        (map_to_list fs).*1),
     None)
  else ([], Some (SysErr "open" path "ENOTDIR")).

End OS.

(** ** Worlds and calls *)

(** The world a call runs in: the file system, the URLs fetched so far and
    the number of GitHub API calls made so far. *)
Record World := {
  fs : gmap string OS.node;
  gets : list string;
  apiCalls : nat
}.

(** A call takes a world and returns a world and its results; [None] stands
    for a call that does not return to its caller (a run-time panic, or
    goroutines that block for ever). *)
Definition M (A : Type) : Type := World -> option (World * A).

Definition ret {A} (a : A) : M A := fun w => Some (w, a).

Definition bind {A B} (m : M A) (k : A -> M B) : M B :=
  fun w => match m w with
           | Some (w', a) => k a w'
           | None => None
           end.

Definition halt {A} : M A := fun _ => None.

Notation "x <- m ; k" := (bind m (fun x => k))
  (at level 20, m at level 100, k at level 200).
Notation "' pat <- m ; k" := (bind m (fun x => match x with pat => k end))
  (at level 20, pat pattern, m at level 100, k at level 200).

(** An operation of package os that changes the file system. *)
Definition os {A} (f : gmap string OS.node -> gmap string OS.node * A) : M A :=
  fun w => let '(fs', a) := f (fs w) in
           Some ({| fs := fs'; gets := gets w; apiCalls := apiCalls w |}, a).

(** An operation of package os that only reads. *)
Definition osRead {A} (f : gmap string OS.node -> A) : M A :=
  fun w => Some (w, f (fs w)).

Definition errIsNil (e : option error) : bool :=
  match e with
  | None => true
  | Some _ => false
  end.

(** ** The package *)

Section Client.

Variable env : Env.
Variable options : Options.

(** *** Release lookup (the file of getLatestRelease, getReleaseAssets) *)

Definition githubLatest (owner repo : string) : M apiReply :=
  fun w => Some ({| fs := fs w; gets := gets w; apiCalls := S (apiCalls w) |},
                 GetLatestRelease env (apiCalls w) owner repo).

Definition githubByTag (owner repo tag : string) : M apiReply :=
  fun w => Some ({| fs := fs w; gets := gets w; apiCalls := S (apiCalls w) |},
                 GetReleaseByTag env (apiCalls w) owner repo tag).

Definition is404 (status : option Z) : bool :=
  match status with
  | Some code => code =? 404
  | None => false
  end.

Definition getLatestRelease (owner repo : string)
  : M (option RepositoryRelease * option error) :=
  reply <- githubLatest owner repo ;
  match reply with
  | ApiFailure status e =>
      if is404 status
      then ret (None, Some (Errorf "仓库 %s/%s 没有Release"
                                   [AStr owner; AStr repo] None))
      else ret (None, Some (Errorf "获取最新Release失败: %w" [] (Some e)))
  | ApiRelease release => ret (Some release, None)
  end.

Definition getReleaseByTag (owner repo tag : string)
  : M (option RepositoryRelease * option error) :=
  reply <- githubByTag owner repo tag ;
  match reply with
  | ApiFailure status e =>
      if is404 status
      then ret (None, Some (Errorf "仓库 %s/%s 中没有Tag为 %s 的Release"
                                   [AStr owner; AStr repo; AStr tag] None))
      else ret (None, Some (Errorf "通过Tag获取Release失败: %w" [] (Some e)))
  | ApiRelease release => ret (Some release, None)
  end.

(** Reading a field through a nil [*RepositoryRelease] would panic. *)
Definition deref (release : option RepositoryRelease) : M RepositoryRelease :=
  match release with
  | Some r => ret r
  | None => halt
  end.

Definition getSourceCodeURL (owner repo tag : string)
  : M (string * option error) :=
  '(tag, e) <-
     (if String.eqb tag "" then
        '(release, e) <- getLatestRelease owner repo ;
        match e with
        | Some e => ret ("", Some e)
        | None => r <- deref release ; ret (TagName r, None)
        end
      else ret (tag, None)) ;
  match e with
  | Some e => ret ("", Some e)
  | None =>
      ret ("https://github.com/" +:+ owner +:+ "/" +:+ repo
             +:+ "/archive/refs/tags/" +:+ tag +:+ ".tar.gz", None)
  end.

Definition getLatestTagName (owner repo : string)
  : M (string * option error) :=
  '(release, e) <- getLatestRelease owner repo ;
  match e with
  | Some e => ret ("", Some e)
  | None => r <- deref release ; ret (TagName r, None)
  end.

Definition IsLatestVersion (owner repo currentVersion : string)
  : M (bool * option error) :=
  '(latestVersion, e) <- getLatestTagName owner repo ;
  match e with
  | Some e => ret (false, Some e)
  | None =>
      let currentVersion := TrimPrefix currentVersion "v" in
      let latestVersion := TrimPrefix latestVersion "v" in
      let isLatest := String.eqb currentVersion latestVersion in
      ret (isLatest, None)
  end.

Definition osMap : gmap string (list string) :=
  list_to_map
    [("linux", ["linux"; "gnu"; "gnulinux"]);
     ("darwin", ["darwin"; "mac"; "osx"]);
     ("windows", ["windows"; "win"]);
     ("freebsd", ["freebsd"; "bsd"]);
     ("openbsd", ["openbsd"; "bsd"]);
     ("netbsd", ["netbsd"; "bsd"])].

Definition archMap : gmap string (list string) :=
  list_to_map
    [("amd64", ["amd64"; "x86_64"; "64bit"]);
     ("386", ["386"; "i386"; "x86"; "32bit"]);
     ("arm", ["arm"; "armv5"; "armv6"; "armv7"]);
     ("arm64", ["arm64"; "aarch64"]);
     ("mips", ["mips"]);
     ("mipsle", ["mipsle"; "mips32le"]);
     ("mips64", ["mips64"]);
     ("mips64le", ["mips64le"]);
     ("ppc64", ["ppc64"; "powerpc64"]);
     ("ppc64le", ["ppc64le"; "powerpc64le"]);
     ("s390x", ["s390x"; "s390"])].

(** The loop over the aliases, which stops at the first one found. *)
Fixpoint anyAlias (lowerName : string) (aliases : list string) : bool :=
  match aliases with
  | [] => false
  | alias :: rest =>
      if Contains lowerName alias then true else anyAlias lowerName rest
  end.

Definition platformMatched (table : gmap string (list string))
  (current lowerName : string) : bool :=
  match table !! current with
  | Some aliases => anyAlias lowerName aliases
  | None => Contains lowerName current
  end.

(** The loop over the assets: a matching asset is appended. *)
Fixpoint matchAssets (assets matchedAssets : list ReleaseAsset)
  : list ReleaseAsset :=
  match assets with
  | [] => matchedAssets
  | asset :: rest =>
      let lowerName := ToLower (Name asset) in
      let osMatched := platformMatched osMap (GOOS env) lowerName in
      let archMatched := platformMatched archMap (GOARCH env) lowerName in
      if osMatched && archMatched
      then matchAssets rest (matchedAssets ++ [asset])
      else matchAssets rest matchedAssets
  end.

Definition getReleaseAssets (release : RepositoryRelease)
  : list ReleaseAsset :=
  let assets := Assets release in
  if (length assets <=? 1)%nat then assets
  else
    let matchedAssets := matchAssets assets [] in
    if (0 <? length matchedAssets)%nat then matchedAssets
    else match assets with
         | first :: _ => [first]
         | [] => []
         end.

Definition getAssetDownloadURL (asset : ReleaseAsset) : string :=
  BrowserDownloadURL asset.

Definition shouldDownloadSource (assets : list ReleaseAsset) : bool :=
  (length assets =? 0)%nat && DownloadSource options.

(** *** fileutil.go *)

(** Writing to an open file; the environment decides whether the disk
    refuses the bytes. *)
Definition fileWrite (path data : string) : M (option error) :=
  fun w =>
    match writeFault env path (OS.fileSize (fs w) path) with
    | Some e => Some (w, Some e)
    | None => Some ({| fs := OS.append (fs w) path data;
                       gets := gets w; apiCalls := apiCalls w |}, None)
    end.

(** [io.Copy(dst, src)]: the bytes the source delivers are written, then
    the error that ended the source, if any, is returned. *)
Definition ioCopy (dst data : string) (srcErr : option error)
  : M (option error) :=
  e <- fileWrite dst data ;
  match e with
  | Some e => ret (Some e)
  | None => ret srcErr
  end.

Fixpoint extractZipFiles (extractedDir : string) (files : list zipEntry)
  : M (option error) :=
  match files with
  | [] => ret None
  | f :: rest =>
      let targetPath := Join extractedDir (zName f) in
      e <- os (fun fs => OS.MkdirAll fs (Dir targetPath) 493) ;
      match e with
      | Some e => ret (Some (Errorf "创建目录失败: %w" [] (Some e)))
      | None =>
          if zIsDir f then extractZipFiles extractedDir rest
          else
            match zOpenErr f with
            | Some e => ret (Some (Errorf "打开源文件失败: %w" [] (Some e)))
            | None =>
                e <- os (fun fs => OS.Create fs targetPath) ;
                match e with
                | Some e =>
                    ret (Some (Errorf "创建目标文件失败: %w" [] (Some e)))
                | None =>
                    e <- ioCopy targetPath (zData f) (zDataErr f) ;
                    match e with
                    | Some e =>
                        ret (Some (Errorf "复制文件内容失败: %w" [] (Some e)))
                    | None =>
                        (* a failing Chmod is logged *)
                        _ <- os (fun fs => OS.Chmod fs targetPath (zMode f)) ;
                        extractZipFiles extractedDir rest
                    end
                end
            end
      end
  end.

Definition extractZip (filePath : string) : M (string * option error) :=
  '(content, e) <- osRead (fun fs => OS.ReadFile fs filePath) ;
  match e with
  | Some e => ret ("", Some (Errorf "打开ZIP文件失败: %w" [] (Some e)))
  | None =>
      match zipOpenReader env content with
      | inl e => ret ("", Some (Errorf "打开ZIP文件失败: %w" [] (Some e)))
      | inr files =>
          let extractedDir := TrimSuffix filePath (Ext filePath) in
          e <- os (fun fs => OS.MkdirAll fs extractedDir 493) ;
          match e with
          | Some e => ret ("", Some (Errorf "创建解压目录失败: %w" [] (Some e)))
          | None =>
              e <- extractZipFiles extractedDir files ;
              match e with
              | Some e => ret ("", Some e)
              | None => ret (extractedDir, None)
              end
          end
      end
  end.

(** [os.Open] followed by [gzip.NewReader]: opening a missing file fails,
    reading the header of anything but a well-formed gzip file fails. *)
Definition openGzip (filePath : string) : M (option gzStream * option error) :=
  '(info, e) <- osRead (fun fs => OS.Stat fs filePath) ;
  match e with
  | Some e => ret (None, Some (Errorf "打开文件失败: %w" [] (Some e)))
  | None =>
      '(content, e) <- osRead (fun fs => OS.ReadFile fs filePath) ;
      match e with
      | Some e => ret (None, Some (Errorf "创建gzip读取器失败: %w" [] (Some e)))
      | None =>
          match gzipNewReader env content with
          | inl e =>
              ret (None, Some (Errorf "创建gzip读取器失败: %w" [] (Some e)))
          | inr gz => ret (Some gz, None)
          end
      end
  end.

Definition extractTarEntry (targetPath : string) (header : tarHeader)
  : M (option error) :=
  match Typeflag header with
  | TypeDir =>
      e <- os (fun fs => OS.MkdirAll fs targetPath 493) ;
      match e with
      | Some e => ret (Some (Errorf "创建目录失败: %w" [] (Some e)))
      | None => ret None
      end
  | TypeReg =>
      e <- os (fun fs => OS.Create fs targetPath) ;
      match e with
      | Some e => ret (Some (Errorf "创建目标文件失败: %w" [] (Some e)))
      | None =>
          e <- ioCopy targetPath (hData header) (hDataErr header) ;
          match e with
          | Some e => ret (Some (Errorf "复制文件内容失败: %w" [] (Some e)))
          | None =>
              (* a failing Chmod is logged *)
              _ <- os (fun fs => OS.Chmod fs targetPath (hMode header)) ;
              ret None
          end
      end
  | TypeSymlink =>
      (* a failing Symlink is logged *)
      _ <- os (fun fs => OS.Symlink_ fs (Linkname header) targetPath) ;
      ret None
  | TypeLink =>
      (* a failing Link is logged *)
      _ <- os (fun fs => OS.Link fs (Linkname header) targetPath) ;
      ret None
  | TypeOther => ret None
  end.

Fixpoint extractTarEntries (extractedDir : string) (headers : list tarHeader)
  (tarErr : option error) : M (option error) :=
  match headers with
  | [] =>
      match tarErr with
      | None => ret None   (* io.EOF *)
      | Some e => ret (Some (Errorf "读取tar文件失败: %w" [] (Some e)))
      end
  | header :: rest =>
      let targetPath := Join extractedDir (hName header) in
      e <- os (fun fs => OS.MkdirAll fs (Dir targetPath) 493) ;
      match e with
      | Some e => ret (Some (Errorf "创建目录失败: %w" [] (Some e)))
      | None =>
          e <- extractTarEntry targetPath header ;
          match e with
          | Some e => ret (Some e)
          | None => extractTarEntries extractedDir rest tarErr
          end
      end
  end.

Definition tarGzDir (filePath : string) : string :=
  TrimSuffix filePath (Ext (TrimSuffix filePath (Ext filePath))).

Definition extractTarGz (filePath : string) : M (string * option error) :=
  '(gz, e) <- openGzip filePath ;
  match e, gz with
  | Some e, _ => ret ("", Some e)
  | None, None => halt
  | None, Some gzipReader =>
      let tarReader := tarNewReader env gzipReader in
      let extractedDir := tarGzDir filePath in
      e <- os (fun fs => OS.MkdirAll fs extractedDir 493) ;
      match e with
      | Some e => ret ("", Some (Errorf "创建解压目录失败: %w" [] (Some e)))
      | None =>
          e <- extractTarEntries extractedDir
                 (tarEntries tarReader) (tarEnd tarReader) ;
          match e with
          | Some e => ret ("", Some e)
          | None => ret (extractedDir, None)
          end
      end
  end.

Definition extractGz (filePath : string) : M (string * option error) :=
  '(gz, e) <- openGzip filePath ;
  match e, gz with
  | Some e, _ => ret ("", Some e)
  | None, None => halt
  | None, Some gzipReader =>
      let targetPath := TrimSuffix filePath (Ext filePath) in
      e <- os (fun fs => OS.Create fs targetPath) ;
      match e with
      | Some e => ret ("", Some (Errorf "创建目标文件失败: %w" [] (Some e)))
      | None =>
          e <- ioCopy targetPath (gzData gzipReader) (gzErr gzipReader) ;
          match e with
          | Some e => ret ("", Some (Errorf "复制文件内容失败: %w" [] (Some e)))
          | None => ret (targetPath, None)
          end
      end
  end.

(** The [switch ext] of extractFile, case by case from the top. *)
Definition extractFile (filePath : string) : M (string * option error) :=
  let ext := ToLower (Ext filePath) in
  '(extractedDir, e) <-
     (if String.eqb ext ".zip" then extractZip filePath
      else if String.eqb ext ".tar.gz" || String.eqb ext ".tgz"
      then extractTarGz filePath
      else if String.eqb ext ".gz" then extractGz filePath
      else ret ("", Some (Errorf "不支持的压缩格式: %s" [AStr ext] None))) ;
  match e with
  | Some e => ret ("", Some e)
  | None => ret (extractedDir, None)
  end.

(** copyFile calls itself on every entry of a directory; [depth] bounds the
    nesting, and a path nested deeper than that is refused by the system. *)
Fixpoint copyFile (depth : nat) (sourcePath targetPath : string)
  : M (option error) :=
  match depth with
  | O => ret (Some (Errorf "获取源文件信息失败: %w" []
                      (Some (SysErr "stat" sourcePath "ENAMETOOLONG"))))
  | S depth' =>
      '(sourceInfo, e) <- osRead (fun fs => OS.Stat fs sourcePath) ;
      match e, sourceInfo with
      | Some e, _ => ret (Some (Errorf "获取源文件信息失败: %w" [] (Some e)))
      | None, None => halt
      | None, Some (OS.Directory mode) =>
          e <- os (fun fs => OS.MkdirAll fs targetPath mode) ;
          match e with
          | Some e => ret (Some (Errorf "创建目标目录失败: %w" [] (Some e)))
          | None =>
              '(entries, e) <- osRead (fun fs => OS.ReadDir fs sourcePath) ;
              match e with
              | Some e =>
                  ret (Some (Errorf "读取源目录内容失败: %w" [] (Some e)))
              | None =>
                  (fix copyEntries (entries : list string) : M (option error) :=
                     match entries with
                     | [] => ret None
                     | entry :: rest =>
                         let sourceEntryPath := Join sourcePath entry in
                         let targetEntryPath := Join targetPath entry in
                         e <- copyFile depth' sourceEntryPath targetEntryPath ;
                         match e with
                         | Some e =>
                             ret (Some (Errorf "复制目录项失败: %w" []
                                          (Some e)))
                         | None => copyEntries rest
                         end
                     end) entries
              end
          end
      | None, Some (OS.File _ mode) =>
          '(content, e) <- osRead (fun fs => OS.ReadFile fs sourcePath) ;
          match e with
          | Some e => ret (Some (Errorf "打开源文件失败: %w" [] (Some e)))
          | None =>
              e <- os (fun fs => OS.Create fs targetPath) ;
              match e with
              | Some e => ret (Some (Errorf "创建目标文件失败: %w" [] (Some e)))
              | None =>
                  e <- ioCopy targetPath content None ;
                  match e with
                  | Some e =>
                      ret (Some (Errorf "复制文件内容失败: %w" [] (Some e)))
                  | None =>
                      (* a failing Chmod is logged *)
                      _ <- os (fun fs => OS.Chmod fs targetPath mode) ;
                      ret None
                  end
              end
          end
      | None, Some (OS.Symlink _) =>
          ret (Some (Errorf "打开源文件失败: %w" []
                       (Some (SysErr "open" sourcePath "ELOOP"))))
      end
  end.

Definition moveFile (sourcePath targetPath : string) : M (option error) :=
  '(_, e) <- osRead (fun fs => OS.Stat fs sourcePath) ;
  if negb (errIsNil e)
  then ret (Some (Errorf "源文件不存在: %s" [AStr sourcePath] None))
  else
    e <- os (fun fs => OS.MkdirAll fs (Dir targetPath) 493) ;
    match e with
    | Some e => ret (Some (Errorf "创建目标目录失败: %w" [] (Some e)))
    | None =>
        '(_, e) <- osRead (fun fs => OS.Stat fs targetPath) ;
        e <- (if errIsNil e
              then os (fun fs => OS.RemoveAll fs targetPath)
              else ret None) ;
        match e with
        | Some e => ret (Some (Errorf "删除目标文件失败: %w" [] (Some e)))
        | None =>
            e <- os (fun fs => OS.Rename (crossDevice env) fs
                                 sourcePath targetPath) ;
            match e with
            | None => ret None
            | Some _ =>
                depth <- osRead (fun fs => S (size fs)) ;
                e <- copyFile depth sourcePath targetPath ;
                match e with
                | Some e => ret (Some (Errorf "复制文件失败: %w" [] (Some e)))
                | None =>
                    (* a failing RemoveAll is logged *)
                    _ <- os (fun fs => OS.RemoveAll fs sourcePath) ;
                    ret None
                end
            end
        end
    end.

(** *** downloader.go *)

(** [c.httpClient.Get(url)]: the request is recorded, the transport
    answers. *)
Definition httpClientGet (url : string) : M (error + Response) :=
  fun w => Some ({| fs := fs w; gets := gets w ++ [url];
                    apiCalls := apiCalls w |},
                 httpGet env (length (gets w)) url).

(** The read loop of downloadWithBuffer over the results of the successive
    calls of [bufferedReader.Read]; once they are used up [Read] returns
    no bytes. *)
Fixpoint readLoop (filePath : string) (reads : list (string * ioStatus))
  : M (option error) :=
  match reads with
  | [] => ret None
  | (data, status) :: rest =>
      match status with
      | IoFail e => ret (Some (Errorf "读取数据失败: %w" [] (Some e)))
      | _ =>
          if (String.length data =? 0)%nat then ret None
          else
            e <- fileWrite filePath data ;
            match e with
            | Some e => ret (Some (Errorf "写入数据失败: %w" [] (Some e)))
            | None => readLoop filePath rest
            end
      end
  end.

(** [bufferedWriter.Flush()]. *)
Definition flush (filePath : string) : M (option error) :=
  fun w => Some (w, writeFault env filePath (OS.fileSize (fs w) filePath)).

Definition downloadWithBuffer (url filePath : string) : M (option error) :=
  e <- os (fun fs => OS.Create fs filePath) ;
  match e with
  | Some e => ret (Some (Errorf "创建文件失败: %w" [] (Some e)))
  | None =>
      resp <- httpClientGet url ;
      match resp with
      | inl e => ret (Some (Errorf "发送请求失败: %w" [] (Some e)))
      | inr resp =>
          if negb (StatusCode resp =? 200)
          then ret (Some (Errorf "下载失败，状态码: %d"
                            [AInt (StatusCode resp)] None))
          else if BufferSize options <? 0
          then halt   (* make([]byte, n) panics for a negative n *)
          else
            (* a buffer of length 0 makes the first Read return 0 bytes *)
            e <- readLoop filePath
                   (if BufferSize options =? 0 then [] else Body resp) ;
            match e with
            | Some e => ret (Some e)
            | None =>
                e <- flush filePath ;
                match e with
                | Some e => ret (Some (Errorf "刷新缓冲区失败: %w" [] (Some e)))
                | None => ret None
                end
            end
      end
  end.

Definition downloadAsset (asset : ReleaseAsset) : M (string * option error) :=
  let url := getAssetDownloadURL asset in
  let fileName := Name asset in
  let filePath := Join (CacheDir options) fileName in
  e <- downloadWithBuffer url filePath ;
  match e with
  | Some e =>
      ret ("", Some (Errorf "下载资产 %s 失败: %w" [AStr (Name asset)] (Some e)))
  | None => ret (filePath, None)
  end.

(** One goroutine of downloadAssets, from the moment it holds the semaphore
    to the moment it sends its result. *)
Definition downloadTask (done : bool) (a : ReleaseAsset) : M downloadResult :=
  if done then ret {| filePath := ""; err := Some CtxErr |}
  else
    '(filePath, e) <- downloadAsset a ;
    ret {| filePath := filePath; err := e |}.

(** The goroutines run one after the other, in the order in which their
    results arrive on the channel; [i] counts the results sent before. *)
Fixpoint runTasks (i : nat) (tasks : list ReleaseAsset)
  : M (list downloadResult) :=
  match tasks with
  | [] => ret []
  | a :: rest =>
      r <- downloadTask (ctxDone env i) a ;
      rs <- runTasks (S i) rest ;
      ret (r :: rs)
  end.

(** What the range over the channel [results] receives.  A negative
    capacity makes [make] panic; with capacity 0 no goroutine ever gets the
    semaphore and the channel is never closed. *)
Definition drainResults (assets : list ReleaseAsset)
  : M (list downloadResult) :=
  if Concurrency options <? 0 then halt
  else if (Concurrency options =? 0) && negb (length assets =? 0)%nat
  then halt
  else runTasks 0 (collectionOrder env assets).

(** The collection loop. *)
Fixpoint collect (results : list downloadResult)
  (filePaths : list string) (errors : list error)
  : list string * list error :=
  match results with
  | [] => (filePaths, errors)
  | result :: rest =>
      match err result with
      | Some e => collect rest filePaths (errors ++ [e])
      | None => collect rest (filePaths ++ [filePath result]) errors
      end
  end.

Definition downloadAssets (assets : list ReleaseAsset)
  : M (list string * option error) :=
  results <- drainResults assets ;
  let '(filePaths, errors) := collect results [] [] in
  match errors with
  | first :: _ =>
      if (length filePaths =? 0)%nat
      then ret ([], Some (Errorf "所有资产下载失败: %w" [] (Some first)))
      else ret (filePaths, None)
  | [] => ret (filePaths, None)
  end.

(** The version record of (owner, repo) in the cache directory. *)
Definition cacheVersionPath (owner repo : string) : string :=
  Join (CacheDir options) (owner +:+ "-" +:+ repo +:+ "-version.txt").

(** The test of DownloadLatestRelease on the record: the file exists, can
    be read, and holds exactly the tag. *)
Definition cachedVersionIs (owner repo tag : string)
  (fs : gmap string OS.node) : bool :=
  let cacheVersionPath := cacheVersionPath owner repo in
  match OS.Stat fs cacheVersionPath with
  | (_, None) =>
      match OS.ReadFile fs cacheVersionPath with
      | (cachedVersion, None) => String.eqb cachedVersion tag
      | (_, Some _) => false
      end
  | (_, Some _) => false
  end.

(** [os.WriteFile(path, data, perm)]. *)
Definition osWriteFile (path data : string) (perm : N) : M (option error) :=
  e <- os (fun fs => OS.openTrunc fs path perm) ;
  match e with
  | Some e => ret (Some e)
  | None => fileWrite path data
  end.

(** The update of the record; a failing WriteFile is logged. *)
Definition recordVersion (owner repo tag : string) : M (option error) :=
  osWriteFile (cacheVersionPath owner repo) tag 420.

Definition updateCacheVersion (owner repo tag : string) : M unit :=
  if CheckLatest options then
    _ <- recordVersion owner repo tag ;
    ret tt
  else ret tt.

(** The block "if AutoExtract" of the three public operations: a failing
    extraction is logged and the path is kept. *)
Definition autoExtract (filePath : string) : M string :=
  if AutoExtract options then
    '(extractedPath, e) <- extractFile filePath ;
    match e with
    | Some _ => ret filePath
    | None => ret extractedPath
    end
  else ret filePath.

(** The block "if TargetDir" of the three public operations: a failing move
    is logged and the path is kept. *)
Definition moveToTarget (filePath : string) : M string :=
  if negb (String.eqb (TargetDir options) "")
     && negb (String.eqb (TargetDir options) (CacheDir options))
  then
    let targetPath := Join (TargetDir options) (Base filePath) in
    e <- moveFile filePath targetPath ;
    match e with
    | Some _ => ret filePath
    | None => ret targetPath
    end
  else ret filePath.

(** The loop that moves the downloaded files into the release directory. *)
Fixpoint moveIntoDir (dirPath : string) (filePaths : list string) : M unit :=
  match filePaths with
  | [] => ret tt
  | filePath :: rest =>
      let targetPath := Join dirPath (Base filePath) in
      e <- moveFile filePath targetPath ;
      match e with
      | Some _ => moveIntoDir dirPath rest
      | None =>
          _ <- (if AutoExtract options
                then _ <- extractFile targetPath ; ret tt
                else ret tt) ;
          moveIntoDir dirPath rest
      end
  end.

Definition DownloadSourceCode (owner repo tag : string)
  : M (string * option error) :=
  '(url, e) <- getSourceCodeURL owner repo tag ;
  match e with
  | Some e => ret ("", Some e)
  | None =>
      let fileName := owner +:+ "-" +:+ repo +:+ "-" +:+ tag +:+ ".tar.gz" in
      let filePath := Join (CacheDir options) fileName in
      e <- downloadWithBuffer url filePath ;
      match e with
      | Some e => ret ("", Some (Errorf "下载源代码失败: %w" [] (Some e)))
      | None =>
          filePath <- autoExtract filePath ;
          filePath <- moveToTarget filePath ;
          ret (filePath, None)
      end
  end.

(** The common end of DownloadLatestRelease and DownloadSpecificRelease for
    several files (or none): the directory of the release. *)
Definition releaseDir (owner repo tag : string) : string :=
  Join (CacheDir options) (owner +:+ "-" +:+ repo +:+ "-" +:+ tag).

Definition DownloadLatestRelease (owner repo : string)
  : M (string * option error) :=
  '(release, e) <- getLatestRelease owner repo ;
  match e with
  | Some e => ret ("", Some e)
  | None =>
      release <- deref release ;
      upToDate <-
        (if CheckLatest options
         then osRead (cachedVersionIs owner repo (TagName release))
         else ret false) ;
      if upToDate
      then ret (Join (CacheDir options) (owner +:+ "-" +:+ repo), None)
      else
        let assets := getReleaseAssets release in
        if shouldDownloadSource assets
        then DownloadSourceCode owner repo (TagName release)
        else
          '(filePaths, e) <- downloadAssets assets ;
          match e with
          | Some e => ret ("", Some e)
          | None =>
              match filePaths with
              | [filePath0] =>
                  filePath0 <- autoExtract filePath0 ;
                  filePath0 <- moveToTarget filePath0 ;
                  _ <- updateCacheVersion owner repo (TagName release) ;
                  ret (filePath0, None)
              | _ =>
                  let dirPath := releaseDir owner repo (TagName release) in
                  e <- os (fun fs => OS.MkdirAll fs dirPath 493) ;
                  match e with
                  | Some e =>
                      ret ("", Some (Errorf "创建目录失败: %w" [] (Some e)))
                  | None =>
                      _ <- moveIntoDir dirPath filePaths ;
                      dirPath <- moveToTarget dirPath ;
                      _ <- updateCacheVersion owner repo (TagName release) ;
                      ret (dirPath, None)
                  end
              end
          end
  end.

Definition DownloadSpecificRelease (owner repo tag : string)
  : M (string * option error) :=
  '(release, e) <- getReleaseByTag owner repo tag ;
  match e with
  | Some e => ret ("", Some e)
  | None =>
      release <- deref release ;
      let assets := getReleaseAssets release in
      if shouldDownloadSource assets
      then DownloadSourceCode owner repo tag
      else
        '(filePaths, e) <- downloadAssets assets ;
        match e with
        | Some e => ret ("", Some e)
        | None =>
            match filePaths with
            | [filePath0] =>
                filePath0 <- autoExtract filePath0 ;
                filePath0 <- moveToTarget filePath0 ;
                ret (filePath0, None)
            | _ =>
                let dirPath := releaseDir owner repo tag in
                e <- os (fun fs => OS.MkdirAll fs dirPath 493) ;
                match e with
                | Some e =>
                    ret ("", Some (Errorf "创建目录失败: %w" [] (Some e)))
                | None =>
                    _ <- moveIntoDir dirPath filePaths ;
                    dirPath <- moveToTarget dirPath ;
                    ret (dirPath, None)
                end
            end
        end
  end.

End Client.

(** ** A small concrete environment

    The decoders recognise three toy files; the API serves one release per
    repository; the transport serves every asset URL. *)

Module Demo.

Definition gzipOf (content : string) : error + gzStream :=
  if HasPrefix content "GZ:"
  then inr {| gzData := dropBytes 3 content; gzErr := None |}
  else inl (LibErr "gzip: invalid header" 0).

Definition tarOf (gz : gzStream) : tarStream :=
  if String.eqb (gzData gz) "TAR"
  then {| tarEntries :=
            [ {| hName := "bin"; Typeflag := TypeDir; Linkname := "";
                 hMode := 493; hData := ""; hDataErr := None |};
              {| hName := "bin/app"; Typeflag := TypeReg; Linkname := "";
                 hMode := 493; hData := "ELF"; hDataErr := None |};
              {| hName := "bin/app-link"; Typeflag := TypeSymlink;
                 Linkname := "app"; hMode := 511; hData := "";
                 hDataErr := None |} ];
          tarEnd := None |}
  else {| tarEntries := []; tarEnd := Some (LibErr "tar: invalid header" 0) |}.

Definition zipOf (content : string) : error + list zipEntry :=
  if String.eqb content "ZIP"
  then inr [ {| zName := "app"; zIsDir := false; zMode := 493;
                zOpenErr := None; zData := "ELF"; zDataErr := None |} ]
  else inl (LibErr "zip: not a valid zip file" 0).

Definition mkEnv (latest : string -> string -> apiReply)
  (get : string -> error + Response) : Env :=
  {| GOOS := "linux";
     GOARCH := "amd64";
     GetLatestRelease := fun _ => latest;
     GetReleaseByTag := fun _ owner repo _ => latest owner repo;
     httpGet := fun _ => get;
     gzipNewReader := gzipOf;
     tarNewReader := tarOf;
     zipOpenReader := zipOf;
     crossDevice := fun _ _ => false;
     writeFault := fun _ _ => None;
     collectionOrder := fun l => l;
     collectionOrder_perm := fun l => Permutation_refl l;
     ctxDone := fun _ => false |}.

Definition mkOptions (autoExtract checkLatest : bool) (targetDir : string)
  : Options :=
  {| Concurrency := 5;
     BufferSize := 8388608;
     CacheDir := "/cache";
     AutoExtract := autoExtract;
     TargetDir := targetDir;
     DownloadSource := true;
     CheckLatest := checkLatest |}.

Definition world0 : World :=
  {| fs := {[ "/cache" := OS.Directory 493 ]}; gets := []; apiCalls := 0 |}.

Definition response (body : string) (code : Z) : Response :=
  {| StatusCode := code;
     ContentLength := Z.of_nat (String.length body);
     Body := [(body, IoNil)] |}.

Definition serve (body : string) (code : Z) : string -> error + Response :=
  fun _ => inr (response body code).

(** Every URL is served with status 200, except the one of the asset named
    "missing", which is answered 404. *)
Definition serveButMissing (body : string) : string -> error + Response :=
  fun url =>
    if String.eqb url "https://dl/missing" then serve "" 404 url
    else serve body 200 url.

(** A world whose cache holds the record "v1" of (o, r). *)
Definition worldV1 : World :=
  {| fs := {[ "/cache" := OS.Directory 493;
              "/cache/o-r-version.txt" := OS.File "v1" 420 ]};
     gets := []; apiCalls := 0 |}.

(** A world whose cache holds two archives with the same bytes. *)
Definition worldArchives : World :=
  {| fs := {[ "/cache" := OS.Directory 493;
              "/cache/app.tar.gz" := OS.File "GZ:TAR" 420;
              "/cache/app.tgz" := OS.File "GZ:TAR" 420 ]};
     gets := []; apiCalls := 0 |}.

Definition asset (name : string) : ReleaseAsset :=
  {| Name := name; Size := 3; BrowserDownloadURL := "https://dl/" +:+ name |}.

Definition oneRelease (tag : string) (names : list string)
  : string -> string -> apiReply :=
  fun _ _ => ApiRelease {| TagName := tag; ReleaseName := tag;
                           Assets := asset <$> names |}.

(** The release v1 of (o, r) has the one asset app.tgz; what is served is
    no gzip file. *)
Definition envOK : Env :=
  mkEnv (oneRelease "v1" ["app.tgz"]) (serve "no gzip" 200).

(** The release has no asset at all. *)
Definition envSource : Env :=
  mkEnv (oneRelease "v1" []) (serve "no gzip" 200).

(** The release has three assets, one of which cannot be fetched. *)
Definition envMixed : Env :=
  mkEnv (oneRelease "v1" ["tool-linux-amd64"; "missing"; "tool-darwin-arm64"])
        (serveButMissing "ELF").

(** What is served is a gzipped tar stream. *)
Definition envTar : Env :=
  mkEnv (oneRelease "v1" ["app.tgz"]) (serve "GZ:TAR" 200).

(** Auto-extract and latest-check enabled, no target directory. *)
Definition opts : Options := mkOptions true true "".

(** The deadline has passed before any task starts. *)
Definition envLate : Env :=
  {| GOOS := "linux";
     GOARCH := "amd64";
     GetLatestRelease := fun _ => oneRelease "v1" ["app.tgz"];
     GetReleaseByTag := fun _ owner repo _ => oneRelease "v1" ["app.tgz"] owner repo;
     httpGet := fun _ => serve "ELF" 200;
     gzipNewReader := gzipOf;
     tarNewReader := tarOf;
     zipOpenReader := zipOf;
     crossDevice := fun _ _ => false;
     writeFault := fun _ _ => None;
     collectionOrder := fun l => l;
     collectionOrder_perm := fun l => Permutation_refl l;
     ctxDone := fun _ => true |}.

(** The same releases seen from other platforms. *)
Definition onPlatform (goos goarch : string) (e : Env) : Env :=
  {| GOOS := goos;
     GOARCH := goarch;
     GetLatestRelease := GetLatestRelease e;
     GetReleaseByTag := GetReleaseByTag e;
     httpGet := httpGet e;
     gzipNewReader := gzipNewReader e;
     tarNewReader := tarNewReader e;
     zipOpenReader := zipOpenReader e;
     crossDevice := crossDevice e;
     writeFault := writeFault e;
     collectionOrder := collectionOrder e;
     collectionOrder_perm := collectionOrder_perm e;
     ctxDone := ctxDone e |}.

(** The repository has no release. *)
Definition envNoRelease : Env :=
  mkEnv (fun _ _ => ApiFailure (Some 404) (LibErr "github: 404 Not Found" 404))
        (serve "" 404).

(** Options that differ from [opts] in one field. *)
Definition optsWith (concurrency bufferSize : Z) (targetDir : string)
  (downloadSource : bool) : Options :=
  {| Concurrency := concurrency;
     BufferSize := bufferSize;
     CacheDir := "/cache";
     AutoExtract := true;
     TargetDir := targetDir;
     DownloadSource := downloadSource;
     CheckLatest := true |}.

(** A world whose cache holds a downloaded file and a gzip file. *)
Definition worldFiles : World :=
  {| fs := {[ "/cache" := OS.Directory 493;
              "/cache/app" := OS.File "ELF" 438;
              "/cache/notes.gz" := OS.File "GZ:hello" 420 ]};
     gets := []; apiCalls := 0 |}.

Definition releaseOf (names : list string) : RepositoryRelease :=
  {| TagName := "v1"; ReleaseName := "v1"; Assets := asset <$> names |}.

End Demo.

(** ** Definitions that follow the words of the specification *)

(** The aliases a platform name is looked up under: its entry in the
    table, or the name itself when the table has no entry. *)
Definition aliasesOf (table : gmap string (list string)) (current : string)
  : list string :=
  match table !! current with
  | Some aliases => aliases
  | None => [current]
  end.

(** An artifact matches when its lower-cased name contains an alias of the
    operating system and an alias of the architecture. *)
Definition platformMatch (goos goarch : string) (a : ReleaseAsset) : bool :=
  existsb (Contains (ToLower (Name a))) (aliasesOf osMap goos)
  && existsb (Contains (ToLower (Name a))) (aliasesOf archMap goarch).

(** The path the source archive of a tag is fetched from. *)
Definition sourceArchiveURL (owner repo tag : string) : string :=
  "https://github.com/" +:+ owner +:+ "/" +:+ repo
    +:+ "/archive/refs/tags/" +:+ tag +:+ ".tar.gz".

(** A result that carries no error. *)
Definition succeeded (r : downloadResult) : bool := errIsNil (err r).

(** A name that is one element of a path. *)
Definition pathElement (s : string) : Prop :=
  Contains s "/" = false /\ s <> "" /\ s <> "." /\ s <> "..".

(** What [filepath.Join dir name] puts in front of a name that is one
    element: the cleaned directory and a separator. *)
Definition joinPrefix (dir : string) : string :=
  if String.eqb dir "" then ""
  else
    let rooted := HasPrefix dir "/" in
    let out := fold_left (cleanStep rooted) (SplitSlash dir) [] in
    (if rooted then "/" else "")
      +:+ match out with
          | [] => ""
          | _ => JoinSlash out +:+ "/"
          end.

(** A call that returns in every world, with a result that satisfies [P]. *)
Definition returns {A} (P : A -> Prop) (m : M A) : Prop :=
  forall w, exists w' a, m w = Some (w', a) /\ P a.

Definition anyResult {A} : A -> Prop := fun _ => True.

(** A pointer and an error of which exactly one is nil. *)
Definition streamOrError {S} (r : option S * option error) : Prop :=
  (exists s, r = (Some s, None)) \/ (exists e, r = (None, Some e)).

(** A result of the shape Go returns: a value and no error, or the zero
    value and an error. *)
Definition valueOrError (r : string * option error) : Prop :=
  (exists p, r = (p, None)) \/ (exists e, r = ("", Some e)).

(** Where a file is after the optional move to the target directory: where
    it was, or under its base name in the target directory when one is
    configured and differs from the cache directory. *)
Definition placedAt (options : Options) (filePath p : string) : Prop :=
  p = filePath
  \/ (TargetDir options <> "" /\ TargetDir options <> CacheDir options
      /\ p = Join (TargetDir options) (Base filePath)).

(** A regular file is stored under the path. *)
Definition fileAt (w : World) (path : string) : Prop :=
  exists data mode, fs w !! OS.key path = Some (OS.File data mode).

(** The bytes the read loop of downloadWithBuffer has written when it ends
    without error: the chunks read, up to the first read that delivers no
    byte. *)
Fixpoint received (reads : list (string * ioStatus)) : string :=
  match reads with
  | [] => ""
  | (data, status) :: rest =>
      match status with
      | IoFail _ => ""
      | _ =>
          if (String.length data =? 0)%nat then ""
          else data +:+ received rest
      end
  end.

(** Two worlds that differ by the file system only. *)
Definition sameTraffic (w w' : World) : Prop :=
  gets w' = gets w /\ apiCalls w' = apiCalls w.

(** Two file systems that agree everywhere but at one key. *)
Definition sameElsewhere (p : string) (fs0 fs1 : gmap string OS.node) : Prop :=
  forall k, k <> p -> fs1 !! k = fs0 !! k.

(** A call that, whenever it returns, has made no request and no API
    call. *)
Definition keepsTraffic {A} (m : M A) : Prop :=
  forall w w' a, m w = Some (w', a) -> sameTraffic w w'.

(** The world after one more API call. *)
Definition afterApiCall (w : World) : World :=
  {| fs := fs w; gets := gets w; apiCalls := S (apiCalls w) |}.

(** ** The asset selector *)

Section Selector.

Variable env : Env.

Lemma anyAlias_existsb lowerName aliases :
  anyAlias lowerName aliases = existsb (Contains lowerName) aliases.
Proof.
  induction aliases as [|alias rest IH]; simpl; [reflexivity|].
  rewrite IH. destruct (Contains lowerName alias); reflexivity.
Qed.

Lemma platformMatched_aliasesOf table current lowerName :
  platformMatched table current lowerName
  = existsb (Contains lowerName) (aliasesOf table current).
Proof.
  unfold platformMatched, aliasesOf.
  destruct (table !! current) as [aliases|].
  - apply anyAlias_existsb.
  - simpl. rewrite orb_false_r. reflexivity.
Qed.

Lemma matchAssets_filter assets matched :
  matchAssets env assets matched
  = matched ++ List.filter (platformMatch (GOOS env) (GOARCH env)) assets.
Proof.
  revert matched.
  induction assets as [|asset rest IH]; intros matched; simpl.
  - rewrite app_nil_r. reflexivity.
  - unfold platformMatch at 1.
    rewrite <- !platformMatched_aliasesOf.
    destruct (platformMatched osMap (GOOS env) (ToLower (Name asset))
              && platformMatched archMap (GOARCH env) (ToLower (Name asset))).
    + rewrite IH, <- app_assoc. reflexivity.
    + apply IH.
Qed.

(** C4. A release with no asset or with one asset: getReleaseAssets returns
    the assets as they are, without any platform matching. *)
Theorem getReleaseAssets_small_identity release :
  (length (Assets release) <= 1)%nat ->
  getReleaseAssets env release = Assets release.
Proof.
  intros Hlen. unfold getReleaseAssets.
  destruct (Nat.leb_spec (length (Assets release)) 1) as [_|Hgt];
    [reflexivity | lia].
Qed.

(** C3. A release with two assets or more: getReleaseAssets returns the
    assets whose lower-cased name contains an alias of the running
    operating system and an alias of the running architecture, in their
    original order, when there is one; otherwise it returns the list that
    holds the first asset only. *)
Theorem getReleaseAssets_platform_selection release :
  (2 <= length (Assets release))%nat ->
  let matched :=
    List.filter (platformMatch (GOOS env) (GOARCH env)) (Assets release) in
  (matched <> [] -> getReleaseAssets env release = matched)
  /\ (matched = [] ->
      exists first rest,
        Assets release = first :: rest
        /\ getReleaseAssets env release = [first]).
Proof.
  intros Hlen matched. unfold getReleaseAssets.
  destruct (Nat.leb_spec (length (Assets release)) 1) as [Hle|_]; [lia|].
  rewrite matchAssets_filter. simpl. fold matched.
  split.
  - intros Hne. destruct matched as [|m ms]; [congruence | reflexivity].
  - intros ->. simpl.
    destruct (Assets release) as [|first rest] eqn:Hassets;
      [simpl in Hlen; lia|].
    exists first, rest. split; reflexivity.
Qed.

End Selector.

(** ** Release lookup *)

Section Lookup.

Variable env : Env.

Lemma getLatestRelease_found owner repo w release :
  GetLatestRelease env (apiCalls w) owner repo = ApiRelease release ->
  getLatestRelease env owner repo w
  = Some ({| fs := fs w; gets := gets w; apiCalls := S (apiCalls w) |},
          (Some release, None)).
Proof.
  intros Hreply. unfold getLatestRelease, bind, githubLatest.
  rewrite Hreply. reflexivity.
Qed.

Lemma getLatestRelease_failed owner repo w status e :
  GetLatestRelease env (apiCalls w) owner repo = ApiFailure status e ->
  exists e',
    getLatestRelease env owner repo w
    = Some ({| fs := fs w; gets := gets w; apiCalls := S (apiCalls w) |},
            (None, Some e')).
Proof.
  intros Hreply. unfold getLatestRelease, bind, githubLatest.
  rewrite Hreply. destruct (is404 status); eexists; reflexivity.
Qed.

Lemma TrimPrefix_v_present s : TrimPrefix (String "v" s) "v" = s.
Proof. reflexivity. Qed.

Lemma TrimPrefix_v_absent s : HasPrefix s "v" = false -> TrimPrefix s "v" = s.
Proof. intros H. unfold TrimPrefix. rewrite H. reflexivity. Qed.

(** C10. When the latest release is found, IsLatestVersion answers true
    exactly when the given version and the tag of the latest release are
    equal once one leading "v" is removed from each of them. *)
Theorem IsLatestVersion_compares_without_v owner repo currentVersion w release :
  GetLatestRelease env (apiCalls w) owner repo = ApiRelease release ->
  exists w' isLatest,
    IsLatestVersion env owner repo currentVersion w
    = Some (w', (isLatest, None))
    /\ (isLatest = true <->
        TrimPrefix currentVersion "v" = TrimPrefix (TagName release) "v").
Proof.
  intros Hreply.
  unfold IsLatestVersion, getLatestTagName, bind.
  rewrite (getLatestRelease_found _ _ _ _ Hreply). simpl.
  eexists _, _. split; [reflexivity|].
  apply String.eqb_eq.
Qed.

(** When the lookup fails, IsLatestVersion returns false and the error of
    the lookup. *)
Lemma IsLatestVersion_lookup_failed owner repo currentVersion w w' release e :
  getLatestRelease env owner repo w = Some (w', (release, Some e)) ->
  IsLatestVersion env owner repo currentVersion w = Some (w', (false, Some e)).
Proof.
  intros Hlatest. unfold IsLatestVersion, getLatestTagName, bind.
  rewrite Hlatest. reflexivity.
Qed.

(** C8. For a tag that is not empty, getSourceCodeURL builds the URL
    https://github.com/{owner}/{repo}/archive/refs/tags/{tag}.tar.gz and
    leaves the world as it is: no call is made.  For the empty tag it asks
    for the latest release first: the tag of that release goes into the
    same URL, and when the lookup fails its error is the error returned. *)
Theorem getSourceCodeURL_construction owner repo tag w :
  (tag <> "" ->
   getSourceCodeURL env owner repo tag w
   = Some (w, (sourceArchiveURL owner repo tag, None)))
  /\ (tag = "" ->
      forall w' release,
        getLatestRelease env owner repo w = Some (w', (Some release, None)) ->
        getSourceCodeURL env owner repo tag w
        = Some (w', (sourceArchiveURL owner repo (TagName release), None)))
  /\ (tag = "" ->
      forall w' release e,
        getLatestRelease env owner repo w = Some (w', (release, Some e)) ->
        getSourceCodeURL env owner repo tag w = Some (w', ("", Some e))).
Proof.
  unfold getSourceCodeURL, bind. repeat split.
  - intros Hne. apply String.eqb_neq in Hne. rewrite Hne. reflexivity.
  - intros -> w' release Hlatest. simpl. rewrite Hlatest. reflexivity.
  - intros -> w' release e Hlatest. simpl. rewrite Hlatest. reflexivity.
Qed.

End Lookup.

(** ** The version record *)

Section VersionRecord.

Variable env : Env.
Variable options : Options.

Lemma openTrunc_ok (fs0 fs1 : gmap string OS.node) path perm :
  OS.openTrunc fs0 path perm = (fs1, None) ->
  OS.isRootKey (OS.key path) = false
  /\ exists mode, fs1 = <[OS.key path := OS.File "" mode]> fs0.
Proof.
  unfold OS.openTrunc, OS.lookupNode.
  destruct (OS.isRootKey (OS.key path)) eqn:Hroot; [discriminate|].
  intros H. split; [reflexivity|].
  destruct (fs0 !! OS.key path) as [[d m|m|t]|]; try discriminate.
  - injection H as <-. eauto.
  - destruct (OS.isDirKey fs0 (Dir (OS.key path))); [|discriminate].
    injection H as <-. eauto.
Qed.

Lemma osWriteFile_ok path data perm w w' :
  osWriteFile env path data perm w = Some (w', None) ->
  OS.isRootKey (OS.key path) = false
  /\ exists mode, fs w' !! OS.key path = Some (OS.File data mode).
Proof.
  unfold osWriteFile, bind, os, ret, fileWrite.
  destruct (OS.openTrunc (fs w) path perm) as [fs1 [e|]] eqn:Hopen;
    [discriminate|].
  apply openTrunc_ok in Hopen as [Hroot [mode ->]]. simpl.
  destruct (writeFault env path _); [discriminate|].
  intros H. injection H as <-. split; [exact Hroot|].
  exists mode. simpl. unfold OS.append.
  rewrite lookup_insert_eq. simpl. apply lookup_insert_eq.
Qed.

(** C5. Once the record of (owner, repo) has been written with a tag, the
    test of DownloadLatestRelease on the record succeeds for this tag and
    fails for every other tag: the whole content of the file is compared
    with the tag, byte for byte. *)
Theorem version_record_read_back owner repo tag w w' :
  recordVersion env options owner repo tag w = Some (w', None) ->
  cachedVersionIs options owner repo tag (fs w') = true
  /\ forall tag',
       tag' <> tag ->
       cachedVersionIs options owner repo tag' (fs w') = false.
Proof.
  unfold recordVersion. intros Hwrite.
  apply osWriteFile_ok in Hwrite as [Hroot [mode Hfile]].
  unfold cachedVersionIs, OS.Stat, OS.ReadFile, OS.lookupNode.
  rewrite Hroot, Hfile. split.
  - apply String.eqb_refl.
  - intros tag' Hne. apply String.eqb_neq. congruence.
Qed.

(** The test is true exactly when a regular file is stored at the path of
    the record and its whole content is the tag. *)
Lemma cachedVersionIs_true owner repo tag (fs0 : gmap string OS.node) :
  cachedVersionIs options owner repo tag fs0 = true <->
  exists mode,
    OS.lookupNode fs0 (OS.key (cacheVersionPath options owner repo))
    = Some (OS.File tag mode).
Proof.
  unfold cachedVersionIs, OS.Stat, OS.ReadFile.
  destruct (OS.lookupNode fs0 _) as [[data mode|mode|target]|]; split;
    try discriminate; try (intros [m H]; discriminate H).
  - intros H. apply String.eqb_eq in H. subst. eauto.
  - intros [m H]. injection H as -> _. apply String.eqb_refl.
Qed.

(** The test decides whether DownloadLatestRelease downloads at all: on a
    record that holds the tag of the latest release the call returns at
    once, without a request and without touching the file system. *)
Lemma DownloadLatestRelease_up_to_date owner repo w release :
  CheckLatest options = true ->
  GetLatestRelease env (apiCalls w) owner repo = ApiRelease release ->
  cachedVersionIs options owner repo (TagName release) (fs w) = true ->
  DownloadLatestRelease env options owner repo w
  = Some ({| fs := fs w; gets := gets w; apiCalls := S (apiCalls w) |},
          (Join (CacheDir options) (owner +:+ "-" +:+ repo), None)).
Proof.
  intros Hcheck Hreply Hcached.
  unfold DownloadLatestRelease, bind.
  rewrite (getLatestRelease_found _ _ _ _ _ Hreply). simpl.
  rewrite Hcheck. unfold osRead. simpl. rewrite Hcached. reflexivity.
Qed.

End VersionRecord.

(** ** The buffered transfer *)

Section Transfer.

Variable env : Env.
Variable options : Options.

Lemma fileWrite_gets path data w :
  exists w' r, fileWrite env path data w = Some (w', r) /\ gets w' = gets w.
Proof.
  unfold fileWrite. destruct (writeFault env path _); eauto.
Qed.

(** The read loop always ends, makes no request, and every error it returns
    wraps the error of a read or of a write. *)
Lemma readLoop_returns filePath reads : forall w,
  exists w' r,
    readLoop env filePath reads w = Some (w', r)
    /\ gets w' = gets w
    /\ forall format args, r <> Some (Errorf format args None).
Proof.
  induction reads as [|[data status] rest IH]; intros w; simpl.
  - exists w, None. repeat split. discriminate.
  - assert (Hstep : exists w' r,
               (if (String.length data =? 0)%nat then ret None
                else e <- fileWrite env filePath data ;
                     match e with
                     | Some e =>
                         ret (Some (Errorf "写入数据失败: %w" [] (Some e)))
                     | None => readLoop env filePath rest
                     end) w = Some (w', r)
               /\ gets w' = gets w
               /\ forall format args, r <> Some (Errorf format args None)).
    { destruct (String.length data =? 0)%nat.
      - exists w, None. repeat split. discriminate.
      - unfold bind.
        destruct (fileWrite_gets filePath data w) as (w1 & r1 & -> & Hg1).
        destruct r1 as [e|].
        + exists w1, (Some (Errorf "写入数据失败: %w" [] (Some e))).
          repeat split; [exact Hg1 | discriminate].
        + destruct (IH w1) as (w2 & r2 & -> & Hg2 & Hr2).
          exists w2, r2. repeat split; [congruence | exact Hr2]. }
    destruct status as [| |e]; try exact Hstep.
    exists w, (Some (Errorf "读取数据失败: %w" [] (Some e))).
    repeat split. discriminate.
Qed.

(** C7, as the code has it.  When the destination file cannot be created
    no request is made.  Otherwise exactly one GET is made; when it fails,
    or when the status of the response is not 200, the transfer returns
    that error and asks no second time; a response with status 200 is never
    reported as a status error. *)
Theorem downloadWithBuffer_single_get url filePath w :
  (forall fs1 e,
     OS.Create (fs w) filePath = (fs1, Some e) ->
     exists w',
       downloadWithBuffer env options url filePath w
       = Some (w', Some (Errorf "创建文件失败: %w" [] (Some e)))
       /\ gets w' = gets w)
  /\ (forall fs1 e,
        OS.Create (fs w) filePath = (fs1, None) ->
        httpGet env (length (gets w)) url = inl e ->
        exists w',
          downloadWithBuffer env options url filePath w
          = Some (w', Some (Errorf "发送请求失败: %w" [] (Some e)))
          /\ gets w' = gets w ++ [url])
  /\ (forall fs1 resp,
        OS.Create (fs w) filePath = (fs1, None) ->
        httpGet env (length (gets w)) url = inr resp ->
        StatusCode resp <> 200 ->
        exists w',
          downloadWithBuffer env options url filePath w
          = Some (w', Some (Errorf "下载失败，状态码: %d"
                              [AInt (StatusCode resp)] None))
          /\ gets w' = gets w ++ [url])
  /\ (forall fs1 resp,
        OS.Create (fs w) filePath = (fs1, None) ->
        httpGet env (length (gets w)) url = inr resp ->
        StatusCode resp = 200 ->
        0 <= BufferSize options ->
        exists w' r,
          downloadWithBuffer env options url filePath w = Some (w', r)
          /\ gets w' = gets w ++ [url]
          /\ forall code,
               r <> Some (Errorf "下载失败，状态码: %d" [AInt code] None)).
Proof.
  unfold downloadWithBuffer, bind, os, httpClientGet, ret.
  repeat split.
  - intros fs1 e ->. eexists. split; reflexivity.
  - intros fs1 e -> Hget. simpl. rewrite Hget.
    eexists. split; reflexivity.
  - intros fs1 resp -> Hget Hcode. simpl. rewrite Hget.
    apply Z.eqb_neq in Hcode. rewrite Hcode. simpl.
    eexists. split; reflexivity.
  - intros fs1 resp -> Hget Hcode Hsize. simpl. rewrite Hget.
    apply Z.eqb_eq in Hcode. rewrite Hcode. simpl.
    apply Z.ltb_ge in Hsize. rewrite Hsize.
    match goal with
    | |- context [readLoop env filePath ?reads ?w1] =>
        destruct (readLoop_returns filePath reads w1)
          as (w2 & r2 & -> & Hg2 & Hr2)
    end.
    simpl in Hg2. destruct r2 as [e|].
    + exists w2, (Some e). repeat split; [exact Hg2|].
      intros code. apply Hr2.
    + unfold flush.
      destruct (writeFault env filePath _) as [e|]; eexists _, _;
        (repeat split; [exact Hg2 | discriminate]).
Qed.

End Transfer.

(** ** Paths *)

Section Paths.

Lemma append_cons c (a b : string) : String c a +:+ b = String c (a +:+ b).
Proof. reflexivity. Qed.

Lemma append_nil_l (a : string) : "" +:+ a = a.
Proof. reflexivity. Qed.

Lemma append_assoc (a b c : string) : (a +:+ b) +:+ c = a +:+ (b +:+ c).
Proof.
  induction a as [|x a IH]; [reflexivity|].
  rewrite !append_cons, IH. reflexivity.
Qed.

Lemma append_nil_r (a : string) : a +:+ "" = a.
Proof.
  induction a as [|x a IH]; [reflexivity|].
  rewrite append_cons, IH. reflexivity.
Qed.

Lemma append_inv_head (a b c : string) : a +:+ b = a +:+ c -> b = c.
Proof.
  induction a as [|x a IH]; intros H; [exact H|].
  rewrite !append_cons in H. injection H as H. apply IH, H.
Qed.

Lemma Contains_slash_cons c s :
  Contains (String c s) "/" = Ascii.eqb "/" c || Contains s "/".
Proof. simpl. rewrite andb_true_r. reflexivity. Qed.

Lemma Contains_slash_app a b :
  Contains (a +:+ b) "/" = Contains a "/" || Contains b "/".
Proof.
  induction a as [|c a IH].
  - reflexivity.
  - change (String c a +:+ b) with (String c (a +:+ b)).
    rewrite !Contains_slash_cons, IH, orb_assoc. reflexivity.
Qed.

Lemma SplitSlash_not_nil s : SplitSlash s <> [].
Proof.
  destruct s as [|c s]; simpl; [discriminate|].
  destruct (Ascii.eqb c "/"); [discriminate|].
  destruct (SplitSlash s); discriminate.
Qed.

Lemma SplitSlash_app_slash a b :
  SplitSlash (a +:+ "/" +:+ b) = SplitSlash a ++ SplitSlash b.
Proof.
  induction a as [|c a IH]; simpl; [reflexivity|].
  destruct (Ascii.eqb c "/").
  - simpl in IH. rewrite IH. reflexivity.
  - simpl in IH. rewrite IH.
    pose proof (SplitSlash_not_nil a) as Hne.
    destruct (SplitSlash a) as [|h t]; [congruence | reflexivity].
Qed.

Lemma SplitSlash_element s : Contains s "/" = false -> SplitSlash s = [s].
Proof.
  induction s as [|c s IH]; [reflexivity|].
  rewrite Contains_slash_cons. intros H.
  apply orb_false_elim in H as [Hc Hs].
  simpl. rewrite Ascii.eqb_sym, Hc, (IH Hs). reflexivity.
Qed.

Lemma JoinSlash_snoc l x :
  JoinSlash (l ++ [x])
  = match l with
    | [] => x
    | _ => JoinSlash l +:+ "/" +:+ x
    end.
Proof.
  induction l as [|e l IH]; [reflexivity|].
  destruct l as [|e' l].
  - reflexivity.
  - change (JoinSlash ((e :: e' :: l) ++ [x]))
      with (e +:+ "/" +:+ JoinSlash ((e' :: l) ++ [x])).
    rewrite IH.
    change (JoinSlash (e :: e' :: l)) with (e +:+ "/" +:+ JoinSlash (e' :: l)).
    rewrite !append_assoc. reflexivity.
Qed.

Lemma cleanStep_element rooted out x :
  pathElement x -> cleanStep rooted out x = out ++ [x].
Proof.
  intros (_ & Hne & Hdot & Hdotdot). unfold cleanStep.
  apply String.eqb_neq in Hne, Hdot, Hdotdot.
  rewrite Hne, Hdot, Hdotdot. reflexivity.
Qed.

Lemma HasPrefix_slash_cons c x :
  HasPrefix (String c x) "/" = Ascii.eqb "/" c.
Proof. simpl. apply andb_true_r. Qed.

Lemma HasPrefix_slash_element x :
  Contains x "/" = false -> HasPrefix x "/" = false.
Proof.
  destruct x as [|c x]; [reflexivity|].
  rewrite Contains_slash_cons, HasPrefix_slash_cons. intros H.
  apply orb_false_elim in H as [Hc _]. exact Hc.
Qed.

Lemma Clean_element x : pathElement x -> Clean x = x.
Proof.
  intros Hx. pose proof Hx as (Hslash & Hne & _).
  unfold Clean. apply String.eqb_neq in Hne. rewrite Hne.
  rewrite (HasPrefix_slash_element _ Hslash), (SplitSlash_element _ Hslash).
  simpl. rewrite (cleanStep_element _ _ _ Hx). reflexivity.
Qed.

(** Joining a directory and one element keeps the element as it is, after a
    prefix that the directory alone decides. *)
Lemma Join_element dir x :
  pathElement x -> Join dir x = joinPrefix dir +:+ x.
Proof.
  intros Hx. pose proof Hx as (Hslash & Hne & _).
  unfold Join, joinPrefix.
  destruct (String.eqb dir "") eqn:Hdir; cbn [negb].
  - apply String.eqb_neq in Hne. rewrite Hne. apply Clean_element, Hx.
  - unfold Clean.
    assert (Hpath : String.eqb (dir +:+ "/" +:+ x) "" = false).
    { destruct dir; [discriminate | reflexivity]. }
    rewrite Hpath.
    assert (Hrooted : HasPrefix (dir +:+ "/" +:+ x) "/" = HasPrefix dir "/").
    { destruct dir; [discriminate | reflexivity]. }
    rewrite Hrooted, SplitSlash_app_slash, (SplitSlash_element _ Hslash).
    set (rooted := HasPrefix dir "/").
    rewrite fold_left_app. cbn [fold_left].
    rewrite (cleanStep_element _ _ _ Hx).
    set (out := fold_left (cleanStep rooted) (SplitSlash dir) []).
    rewrite JoinSlash_snoc.
    destruct rooted, out as [|e out']; rewrite ?append_assoc; reflexivity.
Qed.

Lemma Join_element_inj dir x y :
  pathElement x -> pathElement y -> Join dir x = Join dir y -> x = y.
Proof.
  intros Hx Hy. rewrite !Join_element by assumption. apply append_inv_head.
Qed.

Lemma dashed_element a b :
  Contains a "/" = false -> Contains b "/" = false ->
  pathElement (a +:+ "-" +:+ b).
Proof.
  intros Ha Hb. repeat split.
  - rewrite !Contains_slash_app, Ha, Hb. reflexivity.
  - destruct a; discriminate.
  - destruct a as [|c [|c' a]]; simpl; intros H; try discriminate;
      injection H; intros; discriminate.
  - destruct a as [|c [|c' [|c'' a]]]; simpl; intros H; try discriminate;
      injection H; intros; discriminate.
Qed.

Lemma dashed_longer a b : a +:+ "-" +:+ b <> a.
Proof.
  intros H. rewrite <- (append_nil_r a) in H at 2.
  apply append_inv_head in H. discriminate.
Qed.

End Paths.

(** ** Calls that always return *)

Section Returns.

Variable env : Env.

Lemma returns_ret {A} (P : A -> Prop) a : P a -> returns P (ret a).
Proof. intros Ha w. exists w, a. split; [reflexivity | exact Ha]. Qed.

Lemma returns_bind {A B} (Q : A -> Prop) (P : B -> Prop) m (k : A -> M B) :
  returns Q m -> (forall a, Q a -> returns P (k a)) -> returns P (bind m k).
Proof.
  intros Hm Hk w. destruct (Hm w) as (w1 & a & Hrun & Ha).
  unfold bind. rewrite Hrun. apply Hk, Ha.
Qed.

Lemma returns_weaken {A} (Q P : A -> Prop) m :
  returns Q m -> (forall a, Q a -> P a) -> returns P m.
Proof.
  intros Hm HQP w. destruct (Hm w) as (w1 & a & Hrun & Ha). eauto.
Qed.

Lemma returns_os {A} (P : A -> Prop)
  (f : gmap string OS.node -> gmap string OS.node * A) :
  (forall fs0, P (f fs0).2) -> returns P (os f).
Proof.
  intros Hf w. unfold os. specialize (Hf (fs w)).
  destruct (f (fs w)) as [fs1 a]. eauto.
Qed.

Lemma returns_osRead {A} (P : A -> Prop) (f : gmap string OS.node -> A) :
  (forall fs0, P (f fs0)) -> returns P (osRead f).
Proof. intros Hf w. unfold osRead. eauto. Qed.

Lemma returns_fileWrite path data : returns anyResult (fileWrite env path data).
Proof.
  intros w. unfold fileWrite.
  destruct (writeFault env path _); eexists _, _; split; reflexivity || exact I.
Qed.

Lemma returns_ioCopy dst data srcErr :
  returns anyResult (ioCopy env dst data srcErr).
Proof.
  unfold ioCopy. eapply returns_bind; [apply returns_fileWrite|].
  intros [e|] _; apply returns_ret; exact I.
Qed.

End Returns.

Ltac done_ret := apply returns_ret; try exact I.

Tactic Notation "run" "as" simple_intropattern(pat) :=
  eapply returns_bind with (Q := anyResult);
  [ first [ apply returns_fileWrite | apply returns_ioCopy
          | apply returns_os; intros; exact I
          | apply returns_osRead; intros; exact I ]
  | intros pat _ ].

Section ReturnsFileUtil.

Variable env : Env.

Lemma returns_extractZipFiles extractedDir files :
  returns anyResult (extractZipFiles env extractedDir files).
Proof.
  induction files as [|f rest IH]; simpl; [done_ret|].
  run as [e|]; [done_ret|].
  destruct (zIsDir f); [exact IH|].
  destruct (zOpenErr f); [done_ret|].
  run as [e|]; [done_ret|].
  run as [e|]; [done_ret|].
  run as _. exact IH.
Qed.

Lemma returns_openGzip filePath : returns streamOrError (openGzip env filePath).
Proof.
  unfold openGzip.
  run as [info [e|]]; [apply returns_ret; right; eauto|].
  run as [content [e|]]; [apply returns_ret; right; eauto|].
  destruct (gzipNewReader env content);
    apply returns_ret; [right | left]; eauto.
Qed.

Lemma returns_extractTarEntry targetPath header :
  returns anyResult (extractTarEntry env targetPath header).
Proof.
  unfold extractTarEntry. destruct (Typeflag header).
  - run as [e|]; [done_ret|]. run as [e|]; [done_ret|]. run as _. done_ret.
  - run as [e|]; done_ret.
  - run as _. done_ret.
  - run as _. done_ret.
  - done_ret.
Qed.

Lemma returns_extractTarEntries extractedDir headers tarErr :
  returns anyResult (extractTarEntries env extractedDir headers tarErr).
Proof.
  induction headers as [|header rest IH]; simpl.
  - destruct tarErr; done_ret.
  - run as [e|]; [done_ret|].
    eapply returns_bind; [apply returns_extractTarEntry|].
    intros [e|] _; [done_ret | exact IH].
Qed.

Lemma returns_extractZip filePath :
  returns valueOrError (extractZip env filePath).
Proof.
  unfold extractZip.
  run as [content [e|]]; [apply returns_ret; right; eauto|].
  destruct (zipOpenReader env content); [apply returns_ret; right; eauto|].
  run as [e|]; [apply returns_ret; right; eauto|].
  eapply returns_bind; [apply returns_extractZipFiles|].
  intros [e|] _; apply returns_ret; [right | left]; eauto.
Qed.

Lemma returns_extractTarGz filePath :
  returns valueOrError (extractTarGz env filePath).
Proof.
  unfold extractTarGz.
  eapply returns_bind; [apply returns_openGzip|].
  intros r [[gz ->]|[e ->]]; [|apply returns_ret; right; eauto].
  run as [e|]; [apply returns_ret; right; eauto|].
  eapply returns_bind; [apply returns_extractTarEntries|].
  intros [e|] _; apply returns_ret; [right | left]; eauto.
Qed.

Lemma returns_extractGz filePath :
  returns valueOrError (extractGz env filePath).
Proof.
  unfold extractGz.
  eapply returns_bind; [apply returns_openGzip|].
  intros r [[gz ->]|[e ->]]; [|apply returns_ret; right; eauto].
  run as [e|]; [apply returns_ret; right; eauto|].
  run as [e|]; apply returns_ret; [right | left]; eauto.
Qed.

Lemma returns_extractFile filePath :
  returns valueOrError (extractFile env filePath).
Proof.
  unfold extractFile.
  eapply returns_bind with (Q := valueOrError).
  - destruct (String.eqb _ ".zip"); [apply returns_extractZip|].
    destruct (_ || _); [apply returns_extractTarGz|].
    destruct (String.eqb _ ".gz"); [apply returns_extractGz|].
    apply returns_ret. right. eauto.
  - intros r [[p ->]|[e ->]]; apply returns_ret; [left | right]; eauto.
Qed.

Lemma returns_copyFile depth : forall sourcePath targetPath,
  returns anyResult (copyFile env depth sourcePath targetPath).
Proof.
  induction depth as [|depth IH]; intros sourcePath targetPath; simpl;
    [done_ret|].
  eapply returns_bind with (Q := streamOrError).
  { apply returns_osRead. intros fs0. unfold OS.Stat.
    destruct (OS.lookupNode fs0 _); [left | right]; eauto. }
  intros r [[info ->]|[e ->]]; [|done_ret].
  destruct info as [data mode|mode|target].
  - run as [content [e|]]; [done_ret|].
    run as [e|]; [done_ret|].
    run as [e|]; [done_ret|]. run as _. done_ret.
  - run as [e|]; [done_ret|].
    run as [entries [e|]]; [done_ret|].
    induction entries as [|entry rest IHentries]; [done_ret|].
    eapply returns_bind; [apply IH|].
    intros [e|] _; [done_ret | exact IHentries].
  - done_ret.
Qed.

Lemma returns_moveFile sourcePath targetPath :
  returns anyResult (moveFile env sourcePath targetPath).
Proof.
  unfold moveFile. run as [info e].
  destruct (negb (errIsNil e)); [done_ret|].
  run as [e0|]; [done_ret|].
  run as [info' e'].
  eapply returns_bind with (Q := anyResult).
  { destruct (errIsNil e'); [apply returns_os; intros; exact I | done_ret]. }
  intros [e1|] _; [done_ret|].
  run as [e2|]; [|done_ret].
  run as depth.
  eapply returns_bind; [apply returns_copyFile|].
  intros [e3|] _; [done_ret|]. run as _. done_ret.
Qed.

End ReturnsFileUtil.

(** ** The download orchestrator *)

Section Orchestrator.

Variable env : Env.
Variable options : Options.

Lemma collect_spec results filePaths errors :
  collect results filePaths errors
  = (filePaths ++ (filePath <$> List.filter succeeded results),
     errors ++ omap err results).
Proof.
  revert filePaths errors.
  induction results as [|r rest IH]; intros filePaths errors; simpl.
  - rewrite !app_nil_r. reflexivity.
  - unfold succeeded at 1.
    destruct (err r) as [e|]; simpl; rewrite IH, <- app_assoc; reflexivity.
Qed.

Lemma runTasks_length tasks : forall i w w' results,
  runTasks env options i tasks w = Some (w', results) ->
  length results = length tasks.
Proof.
  induction tasks as [|a rest IH]; intros i w w' results; simpl.
  - unfold ret. intros H. injection H as _ <-. reflexivity.
  - unfold bind at 1.
    destruct (downloadTask env options (ctxDone env i) a w) as [[w1 r]|];
      [|discriminate].
    unfold bind at 1.
    destruct (runTasks env options (S i) rest w1) as [[w2 rs]|] eqn:Hrest;
      [|discriminate].
    unfold ret. intros H. injection H as _ <-. simpl.
    f_equal. eapply IH, Hrest.
Qed.

Lemma drainResults_length assets w w' results :
  drainResults env options assets w = Some (w', results) ->
  length results = length assets.
Proof.
  unfold drainResults.
  destruct (Concurrency options <? 0); [discriminate|].
  destruct ((Concurrency options =? 0) && _); [discriminate|].
  intros H. apply runTasks_length in H. rewrite H.
  apply Permutation_length, collectionOrder_perm.
Qed.

Lemma returns_downloadWithBuffer url path :
  0 <= BufferSize options ->
  returns anyResult (downloadWithBuffer env options url path).
Proof.
  intros Hsize. unfold downloadWithBuffer.
  run as [e|]; [done_ret|].
  eapply returns_bind with (Q := anyResult).
  { intros w. unfold httpClientGet. eexists _, _. split; [reflexivity|exact I]. }
  intros [e|resp] _; [done_ret|].
  destruct (negb (StatusCode resp =? 200)); [done_ret|].
  apply Z.ltb_ge in Hsize. rewrite Hsize.
  eapply returns_bind with (Q := anyResult).
  { intros w.
    destruct (readLoop_returns env path
                (if BufferSize options =? 0 then [] else Body resp) w)
      as (w' & r & Hrun & _).
    exists w', r. split; [exact Hrun | exact I]. }
  intros [e|] _; [done_ret|].
  eapply returns_bind with (Q := anyResult).
  { intros w. unfold flush. eexists _, _. split; [reflexivity|exact I]. }
  intros [e|] _; done_ret.
Qed.

Lemma returns_runTasks tasks : forall i,
  0 <= BufferSize options ->
  returns anyResult (runTasks env options i tasks).
Proof.
  induction tasks as [|a rest IH]; intros i Hsize; simpl; [done_ret|].
  eapply returns_bind with (Q := anyResult).
  { unfold downloadTask. destruct (ctxDone env i); [done_ret|].
    unfold downloadAsset.
    eapply returns_bind with (Q := anyResult); [|intros [p e] _; done_ret].
    eapply returns_bind; [apply returns_downloadWithBuffer, Hsize|].
    intros [e|] _; done_ret. }
  intros r _.
  eapply returns_bind; [apply IH, Hsize|].
  intros rs _. done_ret.
Qed.

(** With room for one transfer at least and a buffer size that is not
    negative, every task sends its result. *)
Lemma drainResults_returns assets :
  0 < Concurrency options -> 0 <= BufferSize options ->
  returns anyResult (drainResults env options assets).
Proof.
  intros Hconc Hsize. unfold drainResults.
  destruct (Z.ltb_spec (Concurrency options) 0); [lia|].
  destruct (Z.eqb_spec (Concurrency options) 0); [lia|].
  simpl. apply returns_runTasks, Hsize.
Qed.

Lemma all_failed_no_path results :
  Forall (fun r => err r <> None) results ->
  List.filter succeeded results = [].
Proof.
  induction 1 as [|r rest Hr _ IH]; simpl; [reflexivity|].
  unfold succeeded at 1. destruct (err r); [exact IH | congruence].
Qed.

Lemma some_succeeded_some_path results :
  Exists (fun r => err r = None) results ->
  List.filter succeeded results <> [].
Proof.
  induction 1 as [r rest Hr|r rest _ IH]; simpl.
  - unfold succeeded at 1. rewrite Hr. discriminate.
  - destruct (succeeded r); [discriminate | exact IH].
Qed.

(** C2. For a list of assets that is not empty: with a concurrency of 1
    or more the tasks all send a result; and whenever the tasks have sent
    their results, in the order [results], downloadAssets returns as
    follows.  When every result carries an error, it returns no path and an
    error that wraps the error of the first result; when some result
    carries none, it returns the paths of the results without error, in
    their order, and no error, however many of the others failed. *)
Theorem downloadAssets_partial_failure assets w :
  assets <> [] ->
  (0 < Concurrency options -> 0 <= BufferSize options ->
   exists w' results,
     drainResults env options assets w = Some (w', results))
  /\ forall w' results,
      drainResults env options assets w = Some (w', results) ->
      length results = length assets
      /\ (Forall (fun r => err r <> None) results ->
          exists first rest e,
            results = first :: rest /\ err first = Some e
            /\ downloadAssets env options assets w
               = Some (w', ([], Some (Errorf "所有资产下载失败: %w" []
                                       (Some e)))))
      /\ (Exists (fun r => err r = None) results ->
          downloadAssets env options assets w
          = Some (w', (filePath <$> List.filter succeeded results, None))).
Proof.
  intros Hne. split.
  { intros Hconc Hsize.
    destruct (drainResults_returns assets Hconc Hsize w)
      as (w' & results & Hrun & _). eauto. }
  intros w' results Hdrain.
  pose proof (drainResults_length _ _ _ _ Hdrain) as Hlen.
  split; [exact Hlen|].
  unfold downloadAssets, bind. rewrite Hdrain, collect_spec. simpl.
  split.
  - intros Hall. rewrite (all_failed_no_path _ Hall). simpl.
    destruct results as [|first rest].
    + destruct assets; [congruence | discriminate].
    + inversion Hall as [|? ? Hfirst _]; subst.
      destruct (err first) as [e|] eqn:He; [|congruence].
      exists first, rest, e. simpl. rewrite He. simpl.
      repeat split; reflexivity.
  - intros Hsome. apply some_succeeded_some_path in Hsome.
    destruct (List.filter succeeded results) as [|r0 rs]; [congruence|].
    simpl. destruct (omap err results); reflexivity.
Qed.

End Orchestrator.

(** ** The public operations *)

Section Operations.

Variable env : Env.
Variable options : Options.

Lemma returns_moveToTarget filePath :
  returns (placedAt options filePath) (moveToTarget env options filePath).
Proof.
  unfold moveToTarget, placedAt.
  destruct (String.eqb (TargetDir options) "") eqn:Hempty; simpl;
    [apply returns_ret; left; reflexivity|].
  destruct (String.eqb (TargetDir options) (CacheDir options)) eqn:Hsame;
    simpl; [apply returns_ret; left; reflexivity|].
  apply String.eqb_neq in Hempty, Hsame.
  eapply returns_bind; [apply returns_moveFile|].
  intros [e|] _; apply returns_ret; [left | right]; auto.
Qed.

Lemma moveToTarget_no_target filePath w :
  TargetDir options = "" \/ TargetDir options = CacheDir options ->
  moveToTarget env options filePath w = Some (w, filePath).
Proof.
  unfold moveToTarget. intros [H|H]; rewrite H.
  - reflexivity.
  - rewrite String.eqb_refl, andb_false_r. reflexivity.
Qed.

Lemma returns_updateCacheVersion owner repo tag :
  returns anyResult (updateCacheVersion env options owner repo tag).
Proof.
  unfold updateCacheVersion, recordVersion, osWriteFile.
  destruct (CheckLatest options); [|apply returns_ret; exact I].
  eapply returns_bind with (Q := anyResult);
    [|intros; apply returns_ret; exact I].
  eapply returns_bind with (Q := anyResult);
    [apply returns_os; intros; exact I|].
  intros [e|] _; [apply returns_ret; exact I | apply returns_fileWrite].
Qed.

Lemma returns_moveIntoDir dirPath filePaths :
  returns anyResult (moveIntoDir env options dirPath filePaths).
Proof.
  induction filePaths as [|filePath rest IH]; simpl;
    [apply returns_ret; exact I|].
  eapply returns_bind; [apply returns_moveFile|].
  intros [e|] _; [exact IH|].
  eapply returns_bind with (Q := anyResult); [|intros; exact IH].
  destruct (AutoExtract options); [|apply returns_ret; exact I].
  eapply returns_bind; [apply returns_extractFile|].
  intros; apply returns_ret; exact I.
Qed.

(** A failing extraction leaves the path of the archive in place. *)
Lemma autoExtract_failure filePath w w' x e :
  AutoExtract options = true ->
  extractFile env filePath w = Some (w', (x, Some e)) ->
  autoExtract env options filePath w = Some (w', filePath).
Proof.
  intros Hauto Hextract. unfold autoExtract, bind.
  rewrite Hauto, Hextract. reflexivity.
Qed.

(** The end of the three operations once one file has been downloaded:
    the move to the target directory and, for the latest release, the
    update of the version record. *)
Lemma single_file_end filePath (update : M unit) :
  returns anyResult update ->
  returns (fun r : string * option error =>
             exists p, r = (p, None) /\ placedAt options filePath p)
    (filePath0 <- moveToTarget env options filePath ;
     _ <- update ;
     ret (filePath0, None)).
Proof.
  intros Hupdate.
  eapply returns_bind; [apply returns_moveToTarget|].
  intros p Hp.
  eapply returns_bind; [apply Hupdate|].
  intros _ _. apply returns_ret. eauto.
Qed.

(** C6. Auto-extract is enabled, one file has been downloaded and its
    extraction fails: DownloadSourceCode, DownloadLatestRelease and
    DownloadSpecificRelease still return without error, and the path they
    return is the path of the archive as it was downloaded, or the path
    the archive has been moved to in the target directory. *)
Theorem extraction_failure_is_not_fatal :
  AutoExtract options = true ->
  (forall owner repo tag w w1 w2 w3 url x e,
     getSourceCodeURL env owner repo tag w = Some (w1, (url, None)) ->
     downloadWithBuffer env options url
       (Join (CacheDir options)
          (owner +:+ "-" +:+ repo +:+ "-" +:+ tag +:+ ".tar.gz")) w1
     = Some (w2, None) ->
     extractFile env
       (Join (CacheDir options)
          (owner +:+ "-" +:+ repo +:+ "-" +:+ tag +:+ ".tar.gz")) w2
     = Some (w3, (x, Some e)) ->
     exists w' p,
       DownloadSourceCode env options owner repo tag w = Some (w', (p, None))
       /\ placedAt options
            (Join (CacheDir options)
               (owner +:+ "-" +:+ repo +:+ "-" +:+ tag +:+ ".tar.gz")) p)
  /\ (forall owner repo w w1 w2 w3 release archive x e,
        getLatestRelease env owner repo w = Some (w1, (Some release, None)) ->
        CheckLatest options
        && cachedVersionIs options owner repo (TagName release) (fs w1)
        = false ->
        shouldDownloadSource options (getReleaseAssets env release) = false ->
        downloadAssets env options (getReleaseAssets env release) w1
        = Some (w2, ([archive], None)) ->
        extractFile env archive w2 = Some (w3, (x, Some e)) ->
        exists w' p,
          DownloadLatestRelease env options owner repo w
          = Some (w', (p, None))
          /\ placedAt options archive p)
  /\ (forall owner repo tag w w1 w2 w3 release archive x e,
        getReleaseByTag env owner repo tag w
        = Some (w1, (Some release, None)) ->
        shouldDownloadSource options (getReleaseAssets env release) = false ->
        downloadAssets env options (getReleaseAssets env release) w1
        = Some (w2, ([archive], None)) ->
        extractFile env archive w2 = Some (w3, (x, Some e)) ->
        exists w' p,
          DownloadSpecificRelease env options owner repo tag w
          = Some (w', (p, None))
          /\ placedAt options archive p).
Proof.
  intros Hauto. repeat split.
  - intros owner repo tag w w1 w2 w3 url x e Hurl Hget Hextract.
    unfold DownloadSourceCode.
    unfold bind at 1. rewrite Hurl. cbn beta iota.
    unfold bind at 1. rewrite Hget. cbn beta iota.
    unfold bind at 1.
    rewrite (autoExtract_failure _ _ _ _ _ Hauto Hextract).
    destruct (returns_moveToTarget
                (Join (CacheDir options)
                   (owner +:+ "-" +:+ repo +:+ "-" +:+ tag +:+ ".tar.gz")) w3)
      as (w4 & p & Hmove & Hp).
    unfold bind. rewrite Hmove. exists w4, p. split; [reflexivity | exact Hp].
  - intros owner repo w w1 w2 w3 release archive x e
      Hlatest Hstale Hsource Hget Hextract.
    unfold DownloadLatestRelease.
    unfold bind at 1. rewrite Hlatest. cbn beta iota.
    unfold deref. unfold bind at 1. unfold ret at 1.
    assert (Hcheck :
              (upToDate <-
                 (if CheckLatest options
                  then osRead (cachedVersionIs options owner repo
                                 (TagName release))
                  else ret false) ;
               ret upToDate) w1 = Some (w1, false)).
    { unfold bind, osRead, ret.
      destruct (CheckLatest options); [|reflexivity].
      simpl in Hstale. rewrite Hstale. reflexivity. }
    unfold bind at 1. unfold bind in Hcheck.
    destruct ((if CheckLatest options
               then osRead (cachedVersionIs options owner repo
                              (TagName release))
               else ret false) w1) as [[w1' upToDate]|]; [|discriminate].
    unfold ret in Hcheck. injection Hcheck as -> ->.
    rewrite Hsource. unfold bind at 1. rewrite Hget. cbn beta iota.
    unfold bind at 1.
    rewrite (autoExtract_failure _ _ _ _ _ Hauto Hextract).
    destruct (single_file_end archive
                (updateCacheVersion env options owner repo (TagName release))
                (returns_updateCacheVersion _ _ _) w3)
      as (w4 & r & Hend & p & -> & Hp).
    rewrite Hend. eauto.
  - intros owner repo tag w w1 w2 w3 release archive x e
      Hlatest Hsource Hget Hextract.
    unfold DownloadSpecificRelease.
    unfold bind at 1. rewrite Hlatest. cbn beta iota.
    unfold deref. unfold bind at 1. unfold ret at 1.
    rewrite Hsource. unfold bind at 1. rewrite Hget. cbn beta iota.
    unfold bind at 1.
    rewrite (autoExtract_failure _ _ _ _ _ Hauto Hextract).
    destruct (returns_moveToTarget archive w3) as (w4 & p & Hmove & Hp).
    unfold bind. rewrite Hmove. exists w4, p. split; [reflexivity | exact Hp].
Qed.

End Operations.

(** ** The path returned for an up-to-date release *)

Section UpToDate.

Variable env : Env.
Variable options : Options.

Lemma fileWrite_fileAt path data w w' r :
  fileAt w path ->
  fileWrite env path data w = Some (w', r) ->
  fileAt w' path.
Proof.
  intros (d & m & Hfile). unfold fileWrite.
  destruct (writeFault env path _).
  - intros H. injection H as <- _. exists d, m. exact Hfile.
  - intros H. injection H as <- _. unfold fileAt, OS.append. simpl.
    rewrite Hfile. exists (d +:+ data), m. apply lookup_insert_eq.
Qed.

Lemma readLoop_fileAt path reads : forall w w' r,
  fileAt w path ->
  readLoop env path reads w = Some (w', r) ->
  fileAt w' path.
Proof.
  induction reads as [|[data status] rest IH]; intros w w' r Hfile; simpl.
  - unfold ret. intros H. injection H as <- _. exact Hfile.
  - assert (Hstep :
              (if (String.length data =? 0)%nat then ret None
               else e <- fileWrite env path data ;
                    match e with
                    | Some e =>
                        ret (Some (Errorf "写入数据失败: %w" [] (Some e)))
                    | None => readLoop env path rest
                    end) w = Some (w', r) -> fileAt w' path).
    { destruct (String.length data =? 0)%nat.
      - unfold ret. intros H. injection H as <- _. exact Hfile.
      - unfold bind.
        destruct (fileWrite env path data w) as [[w1 [e|]]|] eqn:Hwrite;
          [| |discriminate].
        + unfold ret. intros H. injection H as <- _.
          eapply fileWrite_fileAt; eauto.
        + apply IH. eapply fileWrite_fileAt; eauto. }
    destruct status; try exact Hstep.
    unfold ret. intros H. injection H as <- _. exact Hfile.
Qed.

(** A transfer that returns no error leaves a regular file at its
    destination. *)
Lemma downloadWithBuffer_fileAt url path w w' :
  downloadWithBuffer env options url path w = Some (w', None) ->
  fileAt w' path.
Proof.
  unfold downloadWithBuffer, bind, os.
  destruct (OS.Create (fs w) path) as [fs1 [e|]] eqn:Hcreate;
    [discriminate|].
  apply openTrunc_ok in Hcreate as [_ [mode ->]].
  unfold httpClientGet. cbn beta iota.
  destruct (httpGet env _ url) as [e|resp]; [discriminate|].
  destruct (negb (StatusCode resp =? 200)); [discriminate|].
  destruct (BufferSize options <? 0); [discriminate|].
  match goal with
  | |- context [readLoop env path ?reads ?w1] =>
      destruct (readLoop env path reads w1) as [[w2 [e|]]|] eqn:Hloop;
        [discriminate| |discriminate]
  end.
  apply readLoop_fileAt in Hloop.
  - unfold flush, ret. destruct (writeFault env path _); [discriminate|].
    intros H. injection H as <-. exact Hloop.
  - exists "", mode. simpl. apply lookup_insert_eq.
Qed.

(** A downloaded asset is stored under its name in the cache directory. *)
Lemma downloadAsset_placed asset w w' p :
  downloadAsset env options asset w = Some (w', (p, None)) ->
  p = Join (CacheDir options) (Name asset) /\ fileAt w' p.
Proof.
  unfold downloadAsset, bind.
  destruct (downloadWithBuffer env options _ _ w) as [[w1 [e|]]|] eqn:Hget;
    [discriminate| |discriminate].
  unfold ret. intros H. injection H as <- <-.
  split; [reflexivity|]. eapply downloadWithBuffer_fileAt, Hget.
Qed.

(** Several downloaded files (or none) go into the directory of the
    release, which the optional move to the target directory follows. *)
Lemma several_files_end owner repo tag filePaths (update : M unit) :
  returns anyResult update ->
  returns (fun r : string * option error =>
             (exists e, r = ("", Some (Errorf "创建目录失败: %w" [] (Some e))))
             \/ (exists p, r = (p, None)
                  /\ placedAt options (releaseDir options owner repo tag) p))
    (e <- os (fun fs => OS.MkdirAll fs (releaseDir options owner repo tag) 493) ;
     match e with
     | Some e => ret ("", Some (Errorf "创建目录失败: %w" [] (Some e)))
     | None =>
         _ <- moveIntoDir env options (releaseDir options owner repo tag)
                filePaths ;
         dirPath <- moveToTarget env options
                      (releaseDir options owner repo tag) ;
         _ <- update ;
         ret (dirPath, None)
     end).
Proof.
  intros Hupdate.
  eapply returns_bind with (Q := anyResult);
    [apply returns_os; intros; exact I|].
  intros [e|] _; [apply returns_ret; left; eauto|].
  eapply returns_bind; [apply returns_moveIntoDir|]. intros _ _.
  eapply returns_bind; [apply returns_moveToTarget|]. intros p Hp.
  eapply returns_bind; [apply Hupdate|]. intros _ _.
  apply returns_ret. right. eauto.
Qed.

(** C9, as the code has it.  Latest-check is enabled and the record holds
    the tag of the latest release: DownloadLatestRelease returns
    <cacheDir>/<owner>-<repo> and neither fetches nor writes anything.  A
    downloaded asset is stored at <cacheDir>/<assetName>, which is the
    returned path exactly when the asset is named <owner>-<repo>; several
    files go into <cacheDir>/<owner>-<repo>-<tag>, which is never the
    returned path.  Owner, repository, tag and asset name are single path
    elements. *)
Theorem up_to_date_path_and_download_paths owner repo w release :
  CheckLatest options = true ->
  GetLatestRelease env (apiCalls w) owner repo = ApiRelease release ->
  cachedVersionIs options owner repo (TagName release) (fs w) = true ->
  Contains owner "/" = false ->
  Contains repo "/" = false ->
  (exists w',
     DownloadLatestRelease env options owner repo w
     = Some (w', (Join (CacheDir options) (owner +:+ "-" +:+ repo), None))
     /\ fs w' = fs w /\ gets w' = gets w)
  /\ (forall asset w1 w2 p,
        downloadAsset env options asset w1 = Some (w2, (p, None)) ->
        p = Join (CacheDir options) (Name asset)
        /\ fileAt w2 p
        /\ (pathElement (Name asset) ->
            p = Join (CacheDir options) (owner +:+ "-" +:+ repo)
            <-> Name asset = owner +:+ "-" +:+ repo))
  /\ (forall w0 w1 w2 latest filePaths,
        getLatestRelease env owner repo w0 = Some (w1, (Some latest, None)) ->
        cachedVersionIs options owner repo (TagName latest) (fs w1) = false ->
        shouldDownloadSource options (getReleaseAssets env latest) = false ->
        downloadAssets env options (getReleaseAssets env latest) w1
        = Some (w2, (filePaths, None)) ->
        length filePaths <> 1%nat ->
        exists w' r,
          DownloadLatestRelease env options owner repo w0 = Some (w', r)
          /\ ((exists e,
                 r = ("", Some (Errorf "创建目录失败: %w" [] (Some e))))
              \/ (exists p,
                    r = (p, None)
                    /\ placedAt options
                         (releaseDir options owner repo (TagName latest)) p)))
  /\ (forall tag,
        Contains tag "/" = false ->
        releaseDir options owner repo tag
        <> Join (CacheDir options) (owner +:+ "-" +:+ repo)).
Proof.
  intros Hcheck Hreply Hcached Howner Hrepo.
  pose proof (dashed_element _ _ Howner Hrepo) as Hname.
  split; [|split; [|split]].
  - rewrite (DownloadLatestRelease_up_to_date env options owner repo w release)
      by assumption.
    eexists. repeat split.
  - intros asset w1 w2 p Hasset.
    apply downloadAsset_placed in Hasset as [-> Hfile].
    repeat split; [exact Hfile| |].
    + apply Join_element_inj; assumption.
    + intros ->. reflexivity.
  - intros w0 w1 w2 latest filePaths Hlatest Hstale Hsource Hget Hlen.
    unfold DownloadLatestRelease.
    unfold bind at 1. rewrite Hlatest. cbn beta iota.
    unfold deref. unfold bind at 1. unfold ret at 1.
    unfold bind at 1. rewrite Hcheck. unfold osRead at 1. rewrite Hstale.
    rewrite Hsource. unfold bind at 1. rewrite Hget. cbn beta iota.
    destruct (several_files_end owner repo (TagName latest) filePaths
                (updateCacheVersion env options owner repo (TagName latest))
                (returns_updateCacheVersion _ _ _ _ _) w2)
      as (w3 & r & Hend & Hr).
    destruct filePaths as [|f0 [|f1 rest]]; [|simpl in Hlen; lia|];
      rewrite Hend; eauto.
  - intros tag Htag Heq. unfold releaseDir in Heq.
    apply Join_element_inj in Heq; [|
      rewrite <- append_assoc, <- append_assoc;
      apply dashed_element; [|exact Htag];
      rewrite append_assoc; apply Hname | exact Hname].
    rewrite <- append_assoc, <- append_assoc in Heq.
    rewrite (append_assoc owner "-" repo) in Heq.
    apply dashed_longer in Heq. exact Heq.
Qed.

End UpToDate.

(** ** The dispatch of extractFile *)

Section Extraction.

Variable env : Env.

Lemma list_ascii_of_string_app (a b : string) :
  list_ascii_of_string (a +:+ b)
  = list_ascii_of_string a ++ list_ascii_of_string b.
Proof.
  induction a as [|c a IH]; [reflexivity|].
  rewrite append_cons. simpl. rewrite IH. reflexivity.
Qed.

Lemma lowerByte_dot c : lowerByte c = "."%char -> c = "."%char.
Proof.
  destruct c as [[] [] [] [] [] [] [] []]; vm_compute; intros H;
    first [reflexivity | discriminate H].
Qed.

Lemma lowerByte_letter c d :
  lowerByte c = d -> d <> "/"%char -> d <> "."%char ->
  Ascii.eqb c "/" = false /\ Ascii.eqb c "." = false.
Proof.
  intros Hc Hslash Hdot. split; apply Ascii.eqb_neq; intros ->;
    vm_compute in Hc; congruence.
Qed.

(** [filepath.Ext] sees the last extension only: for a name that ends in
    ".tar.gz", in whatever case, it is ".gz". *)
Lemma Ext_tar_gz stem suffix :
  ToLower suffix = ".tar.gz" -> ToLower (Ext (stem +:+ suffix)) = ".gz".
Proof.
  intros Hsuffix.
  destruct suffix as [|c1 [|c2 [|c3 [|c4 [|c5 [|c6 [|c7 [|c8 rest]]]]]]]];
    try discriminate Hsuffix.
  simpl in Hsuffix.
  injection Hsuffix as _ _ _ _ H5 H6 H7.
  apply lowerByte_dot in H5. subst c5.
  destruct (lowerByte_letter c6 "g" H6) as [H6s H6d]; [discriminate..|].
  destruct (lowerByte_letter c7 "z" H7) as [H7s H7d]; [discriminate..|].
  unfold Ext. rewrite list_ascii_of_string_app, rev_app_distr.
  cbn [list_ascii_of_string rev app extScan].
  rewrite <- ?app_assoc. cbn [app extScan].
  rewrite H7s, H7d, H6s, H6d.
  change (Ascii.eqb "." "/") with false.
  change (Ascii.eqb "." ".") with true.
  cbn [ToLower]. rewrite H6, H7. reflexivity.
Qed.

Lemma extractGz_result filePath w w' r :
  extractGz env filePath w = Some (w', r) -> valueOrError r.
Proof.
  intros Hrun.
  destruct (returns_extractGz env filePath w) as (w1 & r1 & Hrun1 & Hr1).
  congruence.
Qed.

(** An archive named *.tar.gz never reaches extractTarGz: the case
    ".tar.gz" of the switch cannot be taken and the case ".gz" is. *)
Lemma extractFile_tar_gz_runs_extractGz stem suffix w :
  ToLower suffix = ".tar.gz" ->
  extractFile env (stem +:+ suffix) w = extractGz env (stem +:+ suffix) w.
Proof.
  intros Hsuffix. unfold extractFile.
  rewrite (Ext_tar_gz _ _ Hsuffix).
  cbn [String.eqb Ascii.eqb Bool.eqb orb andb].
  change (String.eqb ".gz" ".zip") with false.
  change (String.eqb ".gz" ".tar.gz" || String.eqb ".gz" ".tgz") with false.
  change (String.eqb ".gz" ".gz") with true. cbn iota.
  unfold bind.
  destruct (extractGz env (stem +:+ suffix) w) as [[w' r]|] eqn:Hrun;
    [|reflexivity].
  apply extractGz_result in Hrun as [[p ->]|[e ->]]; reflexivity.
Qed.

Lemma length_ToLower s : String.length (ToLower s) = String.length s.
Proof.
  induction s as [|c s IH]; [reflexivity|]. simpl. rewrite IH. reflexivity.
Qed.

Lemma ToLower_dropBytes n : forall s,
  ToLower (dropBytes n s) = dropBytes n (ToLower s).
Proof.
  induction n as [|n IH]; intros [|c s]; try reflexivity. simpl. apply IH.
Qed.

Lemma takeBytes_dropBytes n : forall s, takeBytes n s +:+ dropBytes n s = s.
Proof.
  induction n as [|n IH]; intros [|c s]; try reflexivity.
  simpl. rewrite append_cons, IH. reflexivity.
Qed.

Lemma HasSuffix_ToLower path suffix :
  HasSuffix (ToLower path) suffix = true ->
  exists stem tail, path = stem +:+ tail /\ ToLower tail = suffix.
Proof.
  unfold HasSuffix. intros H. apply andb_prop in H as [_ H].
  apply String.eqb_eq in H.
  rewrite length_ToLower, <- ToLower_dropBytes in H.
  eexists _, _. split; [|exact H].
  symmetry. apply takeBytes_dropBytes.
Qed.

(** The same, for a path given by the suffix of its lower-cased name. *)
Lemma extractFile_tar_gz_suffix filePath w :
  HasSuffix (ToLower filePath) ".tar.gz" = true ->
  extractFile env filePath w = extractGz env filePath w.
Proof.
  intros H. apply HasSuffix_ToLower in H as (stem & tail & -> & Htail).
  apply extractFile_tar_gz_runs_extractGz, Htail.
Qed.

Lemma dropBytes_all s : dropBytes (String.length s) s = "".
Proof. induction s as [|c s IH]; [reflexivity | exact IH]. Qed.

Lemma takeBytes_all s : takeBytes (String.length s) s = s.
Proof.
  induction s as [|c s IH]; [reflexivity|]. simpl. rewrite IH. reflexivity.
Qed.

Lemma TrimSuffix_empty s : TrimSuffix s "" = s.
Proof.
  unfold TrimSuffix, HasSuffix. simpl. rewrite Nat.sub_0_r, dropBytes_all.
  simpl. apply takeBytes_all.
Qed.

(** The directory extractTarGz extracts into is what is left of the path
    once the extension of its stem is removed from it; for a stem without
    extension this is the path of the archive itself. *)
Lemma tarGzDir_plain_stem filePath :
  Ext (TrimSuffix filePath (Ext filePath)) = "" ->
  tarGzDir filePath = filePath.
Proof. intros H. unfold tarGzDir. rewrite H. apply TrimSuffix_empty. Qed.

Lemma openGzip_stream filePath w w' gz e :
  openGzip env filePath w = Some (w', (Some gz, e)) ->
  w' = w
  /\ exists data mode,
       OS.lookupNode (fs w) (OS.key filePath) = Some (OS.File data mode).
Proof.
  intros H. unfold openGzip, bind, osRead, ret, OS.Stat, OS.ReadFile in H.
  destruct (OS.lookupNode (fs w) (OS.key filePath)) as [[data mode|mode|t]|]
    eqn:Hlook; cbn beta iota in H; rewrite ?Hlook in H; cbn beta iota in H;
    try discriminate H.
  destruct (gzipNewReader env data); [discriminate H|].
  injection H as <- _ _. eauto.
Qed.

(** extractTarGz fails on every archive whose extraction directory is the
    archive itself: the directory cannot be made where a file is. *)
Lemma extractTarGz_dir_is_archive filePath w :
  tarGzDir filePath = filePath ->
  exists w' e, extractTarGz env filePath w = Some (w', ("", Some e)).
Proof.
  intros Hdir. unfold extractTarGz. unfold bind at 1.
  destruct (returns_openGzip env filePath w)
    as (w1 & r & Hopen & [[gz ->]|[e ->]]); rewrite Hopen; cbn beta iota.
  - apply openGzip_stream in Hopen as [-> (data & mode & Hfile)].
    unfold bind, os, OS.MkdirAll. rewrite Hdir, Hfile.
    eexists _, _. reflexivity.
  - eexists _, _. reflexivity.
Qed.

End Extraction.

(** ** Worked examples *)

Section Examples.

Import Demo.

(** C1.  The archives /cache/app.tar.gz and /cache/app.tgz hold a gzipped
    tar stream with a directory bin, a file bin/app and a link.
    extractFile gives the first one to extractGz: the result is the single
    file /cache/app.tar with the tar bytes in it, and nothing is unpacked.
    It gives the second one to extractTarGz, whose extraction directory is
    the archive itself, so that the extraction fails. *)
Theorem extractFile_tar_gz_and_tgz :
  (exists w',
     extractFile envTar "/cache/app.tar.gz" worldArchives
     = Some (w', ("/cache/app.tar", None))
     /\ extractFile envTar "/cache/app.tar.gz" worldArchives
        = extractGz envTar "/cache/app.tar.gz" worldArchives
     /\ fs w' !! "/cache/app.tar" = Some (OS.File "TAR" 438)
     /\ fs w' !! "/cache/app/bin/app" = None
     /\ fs w' !! "/cache/app.tar/bin/app" = None)
  /\ tarGzDir "/cache/app.tgz" = "/cache/app.tgz"
  /\ extractFile envTar "/cache/app.tgz" worldArchives
     = Some (worldArchives,
             ("", Some (Errorf "创建解压目录失败: %w" []
                          (Some (SysErr "mkdir" "/cache/app.tgz" "ENOTDIR"))))).
Proof.
  split; [|split].
  - eexists. split; [vm_compute; reflexivity|].
    repeat split; vm_compute; reflexivity.
  - vm_compute. reflexivity.
  - vm_compute. reflexivity.
Qed.

Lemma downloadAssets_partial_failure_witness :
  exists w' results,
    drainResults envMixed opts
      [asset "tool-linux-amd64"; asset "missing"] world0
    = Some (w', results)
    /\ downloadAssets envMixed opts
         [asset "tool-linux-amd64"; asset "missing"] world0
       = Some (w', (filePath <$> List.filter succeeded results, None))
    /\ filePath <$> List.filter succeeded results = ["/cache/tool-linux-amd64"].
Proof.
  destruct (downloadAssets_partial_failure envMixed opts
              [asset "tool-linux-amd64"; asset "missing"] world0)
    as [Hreturns Hpolicy]; [discriminate|].
  eexists _, _. split; [vm_compute; reflexivity|]. split.
  - eapply Hpolicy; [vm_compute; reflexivity|].
    apply Exists_cons_hd. reflexivity.
  - vm_compute. reflexivity.
Defined.

Lemma getReleaseAssets_small_identity_witness :
  getReleaseAssets envOK
    {| TagName := "v1"; ReleaseName := "v1"; Assets := [asset "app.tgz"] |}
  = [asset "app.tgz"].
Proof.
  apply (getReleaseAssets_small_identity envOK
           {| TagName := "v1"; ReleaseName := "v1";
              Assets := [asset "app.tgz"] |}).
  simpl. lia.
Defined.

Lemma getReleaseAssets_platform_selection_witness :
  getReleaseAssets envMixed
    {| TagName := "v1"; ReleaseName := "v1";
       Assets := [asset "tool-darwin-arm64"; asset "Tool-Linux-x86_64";
                  asset "tool-linux-amd64.sha256"] |}
  = [asset "Tool-Linux-x86_64"; asset "tool-linux-amd64.sha256"].
Proof.
  apply (getReleaseAssets_platform_selection envMixed
           {| TagName := "v1"; ReleaseName := "v1";
              Assets := [asset "tool-darwin-arm64"; asset "Tool-Linux-x86_64";
                         asset "tool-linux-amd64.sha256"] |}).
  - simpl. lia.
  - vm_compute. discriminate.
Defined.

Lemma version_record_read_back_witness :
  exists w',
    recordVersion envOK opts "o" "r" "v1" world0 = Some (w', None)
    /\ cachedVersionIs opts "o" "r" "v1" (fs w') = true
    /\ cachedVersionIs opts "o" "r" "1" (fs w') = false.
Proof.
  eexists. split; [vm_compute; reflexivity|].
  destruct (version_record_read_back envOK opts "o" "r" "v1" world0 _
              eq_refl) as [Hsame Hother].
  split; [exact Hsame | apply Hother; discriminate].
Defined.

Lemma extraction_failure_is_not_fatal_witness :
  AutoExtract opts = true
  /\ (exists w' p,
        DownloadSourceCode envSource opts "o" "r" "v1" world0
        = Some (w', (p, None))
        /\ placedAt opts "/cache/o-r-v1.tar.gz" p)
  /\ (exists w' p,
        DownloadLatestRelease envOK opts "o" "r" world0 = Some (w', (p, None))
        /\ placedAt opts "/cache/app.tgz" p)
  /\ (exists w' p,
        DownloadSpecificRelease envOK opts "o" "r" "v1" world0
        = Some (w', (p, None))
        /\ placedAt opts "/cache/app.tgz" p).
Proof.
  split; [reflexivity|].
  destruct (extraction_failure_is_not_fatal envSource opts eq_refl)
    as (Hsource & _ & _).
  destruct (extraction_failure_is_not_fatal envOK opts eq_refl)
    as (_ & Hlatest & Hspecific).
  split; [|split].
  - change "/cache/o-r-v1.tar.gz"
      with (Join (CacheDir opts) ("o" +:+ "-" +:+ "r" +:+ "-" +:+ "v1"
                                    +:+ ".tar.gz")).
    eapply Hsource; vm_compute; reflexivity.
  - eapply Hlatest; vm_compute; reflexivity.
  - eapply Hspecific; vm_compute; reflexivity.
Defined.

(** C7 as it is stated fails: 204 is a 2xx status, and the transfer
    reports it as a status error. *)
Lemma downloadWithBuffer_204_is_an_error :
  (200 <= 204 < 300)
  /\ exists w',
       downloadWithBuffer (mkEnv (oneRelease "v1" []) (serve "" 204)) opts
         "https://dl/app" "/cache/app" world0
       = Some (w', Some (Errorf "下载失败，状态码: %d" [AInt 204] None)).
Proof.
  split; [lia|]. eexists. vm_compute. reflexivity.
Qed.

Lemma downloadWithBuffer_single_get_witness :
  (exists w',
     downloadWithBuffer envMixed opts "https://dl/missing" "/cache/missing"
       world0
     = Some (w', Some (Errorf "下载失败，状态码: %d" [AInt 404] None))
     /\ gets w' = ["https://dl/missing"])
  /\ (exists w' r,
        downloadWithBuffer envMixed opts "https://dl/app" "/cache/app" world0
        = Some (w', r)
        /\ gets w' = ["https://dl/app"]
        /\ forall code,
             r <> Some (Errorf "下载失败，状态码: %d" [AInt code] None)).
Proof.
  split.
  - destruct (downloadWithBuffer_single_get envMixed opts
                "https://dl/missing" "/cache/missing" world0)
      as (_ & _ & Hstatus & _).
    eapply (Hstatus _ (response "" 404));
      [vm_compute; reflexivity | reflexivity | discriminate].
  - destruct (downloadWithBuffer_single_get envMixed opts
                "https://dl/app" "/cache/app" world0)
      as (_ & _ & _ & Hok).
    eapply (Hok _ (response "ELF" 200));
      [vm_compute; reflexivity | reflexivity | reflexivity |].
    vm_compute. discriminate.
Defined.

Lemma getSourceCodeURL_construction_witness :
  getSourceCodeURL envOK "sunwu57" "github-release-downloader" "v1.0.0" world0
  = Some (world0,
          ("https://github.com/sunwu57/github-release-downloader/archive/refs/tags/v1.0.0.tar.gz",
           None))
  /\ exists w',
       getSourceCodeURL envOK "o" "r" "" world0
       = Some (w', ("https://github.com/o/r/archive/refs/tags/v1.tar.gz",
                    None)).
Proof.
  split.
  - destruct (getSourceCodeURL_construction envOK "sunwu57"
                "github-release-downloader" "v1.0.0" world0) as (Htag & _).
    apply Htag. discriminate.
  - destruct (getSourceCodeURL_construction envOK "o" "r" "" world0)
      as (_ & Hlatest & _).
    eexists. apply (Hlatest eq_refl _ {| TagName := "v1"; ReleaseName := "v1";
                                         Assets := [asset "app.tgz"] |}).
    vm_compute. reflexivity.
Defined.

(** C9 as it is stated fails: the release (o, r) has one asset named
    "o-r", and the download stores it at the very path that the
    up-to-date call returns. *)
Lemma up_to_date_path_is_a_download_path :
  (exists w',
     DownloadLatestRelease envOK opts "o" "r" worldV1
     = Some (w', ("/cache/o-r", None)))
  /\ exists w',
       downloadAsset envOK opts (asset "o-r") world0
       = Some (w', ("/cache/o-r", None))
       /\ fs w' !! "/cache/o-r" = Some (OS.File "no gzip" 438).
Proof.
  split.
  - eexists. vm_compute. reflexivity.
  - eexists. split; vm_compute; reflexivity.
Qed.

Lemma up_to_date_path_and_download_paths_witness :
  (exists w',
     DownloadLatestRelease envOK opts "o" "r" worldV1
     = Some (w', (Join (CacheDir opts) ("o" +:+ "-" +:+ "r"), None))
     /\ fs w' = fs worldV1 /\ gets w' = gets worldV1)
  /\ releaseDir opts "o" "r" "v1" <> Join (CacheDir opts) ("o" +:+ "-" +:+ "r").
Proof.
  destruct (up_to_date_path_and_download_paths envOK opts "o" "r" worldV1
              {| TagName := "v1"; ReleaseName := "v1";
                 Assets := [asset "app.tgz"] |})
    as (Hreturn & _ & _ & Hdir);
    try (vm_compute; reflexivity).
  split; [exact Hreturn | apply Hdir; vm_compute; reflexivity].
Defined.

Lemma IsLatestVersion_compares_without_v_witness :
  exists w' isLatest,
    IsLatestVersion (mkEnv (oneRelease "1.2.3" []) (serve "" 200))
      "o" "r" "v1.2.3" world0
    = Some (w', (isLatest, None))
    /\ (isLatest = true <->
        TrimPrefix "v1.2.3" "v" = TrimPrefix "1.2.3" "v").
Proof.
  apply (IsLatestVersion_compares_without_v
           (mkEnv (oneRelease "1.2.3" []) (serve "" 200)) "o" "r" "v1.2.3"
           world0 {| TagName := "1.2.3"; ReleaseName := "1.2.3";
                     Assets := [] |}).
  reflexivity.
Defined.

(** "v1.2.3" is the latest version when the latest tag is "1.2.3", and
    "1.2.3" is when the latest tag is "v1.2.3". *)
Example IsLatestVersion_v_on_either_side :
  (snd <$> IsLatestVersion (mkEnv (oneRelease "1.2.3" []) (serve "" 200))
             "o" "r" "v1.2.3" world0) = Some (true, None)
  /\ (snd <$> IsLatestVersion (mkEnv (oneRelease "v1.2.3" []) (serve "" 200))
                "o" "r" "1.2.3" world0) = Some (true, None)
  /\ (snd <$> IsLatestVersion (mkEnv (oneRelease "v1.2.3" []) (serve "" 200))
                "o" "r" "vv1.2.3" world0) = Some (false, None).
Proof. repeat split; vm_compute; reflexivity. Qed.

End Examples.

(** ** What a transfer leaves on the disk *)

Section TransferContent.

Variable env : Env.
Variable options : Options.

Lemma sameElsewhere_refl p (fs0 : gmap string OS.node) : sameElsewhere p fs0 fs0.
Proof. intros k _. reflexivity. Qed.

Lemma sameElsewhere_trans p (fs0 fs1 fs2 : gmap string OS.node) :
  sameElsewhere p fs0 fs1 -> sameElsewhere p fs1 fs2 -> sameElsewhere p fs0 fs2.
Proof. intros H01 H12 k Hk. rewrite (H12 k Hk). apply H01, Hk. Qed.

Lemma sameElsewhere_insert p v (fs0 : gmap string OS.node) :
  sameElsewhere p fs0 (<[p := v]> fs0).
Proof. intros k Hk. apply lookup_insert_ne. congruence. Qed.

Lemma fileWrite_frame path data w w' r :
  fileWrite env path data w = Some (w', r) ->
  sameTraffic w w' /\ sameElsewhere (OS.key path) (fs w) (fs w').
Proof.
  unfold fileWrite. destruct (writeFault env path _).
  - intros H. injection H as <- _. split; [split; reflexivity|].
    apply sameElsewhere_refl.
  - intros H. injection H as <- _. split; [split; reflexivity|].
    unfold OS.append. simpl.
    destruct (fs w !! OS.key path) as [[d m|m|t]|];
      try apply sameElsewhere_refl.
    apply sameElsewhere_insert.
Qed.

Lemma fileWrite_appends path data w w' d m :
  fs w !! OS.key path = Some (OS.File d m) ->
  fileWrite env path data w = Some (w', None) ->
  fs w' !! OS.key path = Some (OS.File (d +:+ data) m).
Proof.
  intros Hfile. unfold fileWrite.
  destruct (writeFault env path _); [discriminate|].
  intros H. injection H as <-. unfold OS.append. simpl.
  rewrite Hfile. apply lookup_insert_eq.
Qed.

(** The read loop touches the destination only and makes no request. *)
Lemma readLoop_frame path reads : forall w w' r,
  readLoop env path reads w = Some (w', r) ->
  sameTraffic w w' /\ sameElsewhere (OS.key path) (fs w) (fs w').
Proof.
  induction reads as [|[data status] rest IH]; intros w w' r; simpl.
  - unfold ret. intros H. injection H as <- _.
    split; [split; reflexivity | apply sameElsewhere_refl].
  - assert (Hstep :
              (if (String.length data =? 0)%nat then ret None
               else e <- fileWrite env path data ;
                    match e with
                    | Some e =>
                        ret (Some (Errorf "写入数据失败: %w" [] (Some e)))
                    | None => readLoop env path rest
                    end) w = Some (w', r) ->
              sameTraffic w w'
              /\ sameElsewhere (OS.key path) (fs w) (fs w')).
    { destruct (String.length data =? 0)%nat.
      - unfold ret. intros H. injection H as <- _.
        split; [split; reflexivity | apply sameElsewhere_refl].
      - unfold bind.
        destruct (fileWrite env path data w) as [[w1 [e|]]|] eqn:Hwrite;
          [| |discriminate];
          apply fileWrite_frame in Hwrite as [[Hg Ha] Hfs].
        + unfold ret. intros H. injection H as <- _. repeat split; assumption.
        + intros Hrest. apply IH in Hrest as [[Hg' Ha'] Hfs'].
          split; [split; congruence|].
          eapply sameElsewhere_trans; eassumption. }
    destruct status; try exact Hstep.
    unfold ret. intros H. injection H as <- _.
    split; [split; reflexivity | apply sameElsewhere_refl].
Qed.

(** When the loop ends without error the destination has grown by the
    bytes received. *)
Lemma readLoop_content path reads : forall w w' d m,
  fs w !! OS.key path = Some (OS.File d m) ->
  readLoop env path reads w = Some (w', None) ->
  fs w' !! OS.key path = Some (OS.File (d +:+ received reads) m).
Proof.
  induction reads as [|[data status] rest IH]; intros w w' d m Hfile; simpl.
  - unfold ret. intros H. injection H as <-. rewrite append_nil_r. exact Hfile.
  - assert (Hstep :
              (if (String.length data =? 0)%nat then ret None
               else e <- fileWrite env path data ;
                    match e with
                    | Some e =>
                        ret (Some (Errorf "写入数据失败: %w" [] (Some e)))
                    | None => readLoop env path rest
                    end) w = Some (w', None) ->
              fs w' !! OS.key path
              = Some (OS.File
                        (d +:+ (if (String.length data =? 0)%nat then ""
                                else data +:+ received rest)) m)).
    { destruct (String.length data =? 0)%nat.
      - unfold ret. intros H. injection H as <-.
        rewrite append_nil_r. exact Hfile.
      - unfold bind.
        destruct (fileWrite env path data w) as [[w1 [e|]]|] eqn:Hwrite;
          [discriminate| |discriminate].
        intros Hrest.
        rewrite <- append_assoc. eapply IH; [|exact Hrest].
        eapply fileWrite_appends; eassumption. }
    destruct status; try exact Hstep. discriminate.
Qed.

(** A transfer makes no API call and at most one request, for its URL. *)
Lemma downloadWithBuffer_traffic url path w w' r :
  downloadWithBuffer env options url path w = Some (w', r) ->
  apiCalls w' = apiCalls w
  /\ (gets w' = gets w \/ gets w' = gets w ++ [url])
  /\ sameElsewhere (OS.key path) (fs w) (fs w').
Proof.
  unfold downloadWithBuffer, bind, os.
  destruct (OS.Create (fs w) path) as [fs1 [e|]] eqn:Hcreate.
  - unfold ret. intros H. injection H as <- _. simpl.
    unfold OS.Create, OS.openTrunc in Hcreate.
    repeat split; [left; reflexivity|].
    destruct (OS.lookupNode (fs w) (OS.key path)) as [[d m|m|t]|];
      try (injection Hcreate as <-; apply sameElsewhere_refl);
      try discriminate Hcreate.
    destruct (OS.isDirKey (fs w) (Dir (OS.key path)));
      [discriminate Hcreate|].
    injection Hcreate as <-. apply sameElsewhere_refl.
  - apply openTrunc_ok in Hcreate as [_ [mode ->]].
    unfold httpClientGet. cbn beta iota.
    destruct (httpGet env _ url) as [e|resp].
    { unfold ret. intros H. injection H as <- _. simpl.
      repeat split; [right; reflexivity | apply sameElsewhere_insert]. }
    destruct (negb (StatusCode resp =? 200)).
    { unfold ret. intros H. injection H as <- _. simpl.
      repeat split; [right; reflexivity | apply sameElsewhere_insert]. }
    destruct (BufferSize options <? 0); [discriminate|].
    match goal with
    | |- context [readLoop env path ?reads ?w1] =>
        destruct (readLoop env path reads w1) as [[w2 r2]|] eqn:Hloop;
          [|discriminate]
    end.
    apply readLoop_frame in Hloop as [[Hg Ha] Hfs]. simpl in Hg, Ha, Hfs.
    assert (Hframe : sameElsewhere (OS.key path) (fs w) (fs w2)).
    { eapply sameElsewhere_trans; [apply sameElsewhere_insert | exact Hfs]. }
    destruct r2 as [e|].
    + unfold ret. intros H. injection H as <- _.
      repeat split; [exact Ha | right; exact Hg | exact Hframe].
    + unfold flush, ret. destruct (writeFault env path _);
        intros H; injection H as <- _;
        (repeat split; [exact Ha | right; exact Hg | exact Hframe]).
Qed.

(** X1. A transfer that returns no error got a response with status 200,
    and the destination file holds exactly the bytes received, whatever it
    held before; no other file has changed. *)
Theorem downloadWithBuffer_stores_received url path w w' :
  downloadWithBuffer env options url path w = Some (w', None) ->
  exists resp mode,
    httpGet env (length (gets w)) url = inr resp
    /\ StatusCode resp = 200
    /\ fs w' !! OS.key path
       = Some (OS.File
                 (received (if BufferSize options =? 0 then []
                            else Body resp)) mode)
    /\ sameElsewhere (OS.key path) (fs w) (fs w').
Proof.
  intros Hrun.
  pose proof (downloadWithBuffer_traffic _ _ _ _ _ Hrun) as (_ & _ & Hframe).
  revert Hrun. unfold downloadWithBuffer, bind, os.
  destruct (OS.Create (fs w) path) as [fs1 [e|]] eqn:Hcreate;
    [discriminate|].
  apply openTrunc_ok in Hcreate as [_ [mode ->]].
  unfold httpClientGet. cbn beta iota.
  destruct (httpGet env _ url) as [e|resp]; [discriminate|].
  destruct (StatusCode resp =? 200) eqn:Hcode; [|discriminate].
  apply Z.eqb_eq in Hcode. cbn [negb].
  destruct (BufferSize options <? 0); [discriminate|].
  match goal with
  | |- context [readLoop env path ?reads ?w1] =>
      destruct (readLoop env path reads w1) as [[w2 [e|]]|] eqn:Hloop;
        [discriminate| |discriminate]
  end.
  eapply readLoop_content in Hloop; [|simpl; apply lookup_insert_eq].
  unfold flush, ret. destruct (writeFault env path _); [discriminate|].
  intros H. injection H as <-.
  exists resp, mode. repeat split; assumption.
Qed.

(** X2. Once the destination file has been created, a request that fails
    or a response whose status is not 200 makes the transfer return an
    error and leaves an empty file at the destination: what the file held
    before is lost. *)
Theorem downloadWithBuffer_failure_leaves_empty_file url path w fs1 :
  OS.Create (fs w) path = (fs1, None) ->
  (forall resp,
     httpGet env (length (gets w)) url = inr resp -> StatusCode resp <> 200) ->
  exists w' e mode,
    downloadWithBuffer env options url path w = Some (w', Some e)
    /\ fs w' !! OS.key path = Some (OS.File "" mode).
Proof.
  intros Hcreate Hbad. unfold downloadWithBuffer, bind, os.
  rewrite Hcreate.
  apply openTrunc_ok in Hcreate as [_ [mode ->]].
  unfold httpClientGet. cbn beta iota.
  destruct (httpGet env _ url) as [e|resp] eqn:Hget.
  - eexists _, _, mode. split; [reflexivity|]. apply lookup_insert_eq.
  - specialize (Hbad resp eq_refl). apply Z.eqb_neq in Hbad.
    rewrite Hbad. eexists _, _, mode. split; [reflexivity|].
    apply lookup_insert_eq.
Qed.

(** X3. With a buffer size of 0 the first read delivers no byte: a
    response with status 200 gives a transfer without error and an empty
    destination file, whatever the body of the response holds. *)
Theorem downloadWithBuffer_zero_buffer url path w fs1 resp :
  BufferSize options = 0 ->
  OS.Create (fs w) path = (fs1, None) ->
  httpGet env (length (gets w)) url = inr resp ->
  StatusCode resp = 200 ->
  writeFault env path 0 = None ->
  exists w' mode,
    downloadWithBuffer env options url path w = Some (w', None)
    /\ fs w' !! OS.key path = Some (OS.File "" mode).
Proof.
  intros Hsize Hcreate Hget Hcode Hdisk.
  unfold downloadWithBuffer, bind, os. rewrite Hcreate.
  apply openTrunc_ok in Hcreate as [_ [mode ->]].
  unfold httpClientGet. cbn beta iota. cbn [gets]. rewrite Hget.
  apply Z.eqb_eq in Hcode. rewrite Hcode, Hsize. simpl.
  unfold flush, OS.fileSize. simpl. rewrite lookup_insert_eq. simpl.
  rewrite Hdisk. eexists _, mode. split; [reflexivity|].
  simpl. apply lookup_insert_eq.
Qed.

End TransferContent.

(** ** What downloadAssets fetches and returns *)

Section OrchestratorPaths.

Variable env : Env.
Variable options : Options.

Lemma downloadAsset_traffic asset w w' r :
  downloadAsset env options asset w = Some (w', r) ->
  apiCalls w' = apiCalls w
  /\ (gets w' = gets w \/ gets w' = gets w ++ [BrowserDownloadURL asset]).
Proof.
  unfold downloadAsset, bind, getAssetDownloadURL.
  destruct (downloadWithBuffer env options _ _ w) as [[w1 e]|] eqn:Hget;
    [|discriminate].
  apply downloadWithBuffer_traffic in Hget as (Ha & Hg & _).
  destruct e; unfold ret; intros H; injection H as <- _; auto.
Qed.

Lemma downloadTask_result done a w w' r :
  downloadTask env options done a w = Some (w', r) ->
  (err r <> None \/ filePath r = Join (CacheDir options) (Name a))
  /\ apiCalls w' = apiCalls w
  /\ (gets w' = gets w \/ gets w' = gets w ++ [BrowserDownloadURL a]).
Proof.
  unfold downloadTask. destruct done.
  - unfold ret. intros H. injection H as <- <-. simpl.
    repeat split; [left; discriminate | left; reflexivity].
  - unfold bind.
    destruct (downloadAsset env options a w) as [[w1 [p e]]|] eqn:Hasset;
      [|discriminate].
    unfold ret. intros H. injection H as <- <-. simpl.
    pose proof (downloadAsset_traffic _ _ _ _ Hasset) as [Ha Hg].
    repeat split; try assumption.
    destruct e as [e|]; [left; discriminate|].
    right. apply downloadAsset_placed in Hasset as [-> _]. reflexivity.
Qed.

Lemma runTasks_results tasks : forall i w w' results,
  runTasks env options i tasks w = Some (w', results) ->
  Forall2 (fun a r =>
             err r <> None \/ filePath r = Join (CacheDir options) (Name a))
          tasks results
  /\ apiCalls w' = apiCalls w
  /\ exists urls,
       gets w' = gets w ++ urls
       /\ (length urls <= length tasks)%nat
       /\ forall u, In u urls ->
                    exists a, In a tasks /\ u = BrowserDownloadURL a.
Proof.
  induction tasks as [|a rest IH]; intros i w w' results; simpl.
  - unfold ret. intros H. injection H as <- <-.
    repeat split; [constructor|]. exists []. rewrite app_nil_r.
    repeat split; [simpl; lia|]. intros u [].
  - unfold bind at 1.
    destruct (downloadTask env options (ctxDone env i) a w) as [[w1 r]|]
      eqn:Htask; [|discriminate].
    unfold bind at 1.
    destruct (runTasks env options (S i) rest w1) as [[w2 rs]|] eqn:Hrest;
      [|discriminate].
    unfold ret. intros H. injection H as <- <-.
    apply downloadTask_result in Htask as (Hr & Ha & Hg).
    apply IH in Hrest as (Hrs & Ha' & urls & Hg' & Hlen & Hurls).
    repeat split; [constructor; assumption | congruence|].
    destruct Hg as [Hg|Hg].
    + exists urls. rewrite Hg', Hg. repeat split; [lia|].
      intros u Hu. destruct (Hurls u Hu) as (b & Hb & ->). eauto.
    + exists (BrowserDownloadURL a :: urls).
      rewrite Hg', Hg, <- app_assoc. repeat split; [simpl; lia|].
      intros u [<-|Hu]; [eauto|].
      destruct (Hurls u Hu) as (b & Hb & ->). eauto.
Qed.

Lemma successes_are_cache_paths tasks results :
  Forall2 (fun a r =>
             err r <> None \/ filePath r = Join (CacheDir options) (Name a))
          tasks results ->
  forall p,
    In p (filePath <$> List.filter succeeded results) ->
    exists a, In a tasks /\ p = Join (CacheDir options) (Name a).
Proof.
  induction 1 as [|a r tasks results Hr _ IH]; intros p; simpl; [intros []|].
  unfold succeeded at 1.
  destruct (err r) as [e|] eqn:He; simpl.
  - intros Hp. destruct (IH p Hp) as (b & Hb & ->). eauto.
  - intros [<-|Hp].
    + destruct Hr as [Hr| ->]; [congruence | eauto].
    + destruct (IH p Hp) as (b & Hb & ->). eauto.
Qed.

Lemma filter_length_le {A} (f : A -> bool) l :
  (length (List.filter f l) <= length l)%nat.
Proof.
  induction l as [|x l IH]; simpl; [lia|]. destruct (f x); simpl; lia.
Qed.

Lemma downloadAssets_inv assets w w' r :
  downloadAssets env options assets w = Some (w', r) ->
  exists results,
    drainResults env options assets w = Some (w', results)
    /\ (snd r = None ->
        fst r = filePath <$> List.filter succeeded results).
Proof.
  unfold downloadAssets, bind.
  destruct (drainResults env options assets w) as [[w1 results]|] eqn:Hdrain;
    [|discriminate].
  rewrite collect_spec. simpl.
  destruct (omap err results) as [|first errors].
  - unfold ret. intros H. injection H as <- <-. eauto.
  - destruct (length (filePath <$> List.filter succeeded results) =? 0)%nat;
      unfold ret; intros H; injection H as <- <-; exists results;
      (split; [reflexivity|]); simpl; [discriminate | reflexivity].
Qed.

Lemma drainResults_runTasks assets w w' results :
  drainResults env options assets w = Some (w', results) ->
  runTasks env options 0 (collectionOrder env assets) w = Some (w', results).
Proof.
  unfold drainResults.
  destruct (Concurrency options <? 0); [discriminate|].
  destruct ((Concurrency options =? 0) && _); [discriminate|].
  exact id.
Qed.

(** X4. Every path that downloadAssets returns is the path
    <cacheDir>/<name> of one of the assets it was given, and it returns no
    more paths than there are assets. *)
Theorem downloadAssets_returns_cache_paths assets w w' paths :
  downloadAssets env options assets w = Some (w', (paths, None)) ->
  (length paths <= length assets)%nat
  /\ forall p,
       In p paths ->
       exists a, In a assets /\ p = Join (CacheDir options) (Name a).
Proof.
  intros Hrun.
  apply downloadAssets_inv in Hrun as (results & Hdrain & Hpaths).
  specialize (Hpaths eq_refl). simpl in Hpaths. subst paths.
  pose proof (drainResults_length _ _ _ _ _ _ Hdrain) as Hlen.
  apply drainResults_runTasks, runTasks_results in Hdrain as (Hres & _).
  split.
  - rewrite length_fmap, <- Hlen. apply filter_length_le.
  - intros p Hp.
    destruct (successes_are_cache_paths _ _ Hres p Hp) as (a & Ha & ->).
    exists a. split; [|reflexivity].
    eapply Permutation_in; [apply collectionOrder_perm | exact Ha].
Qed.


Lemma runTasks_all_cancelled tasks : forall i w,
  (forall j, ctxDone env j = true) ->
  runTasks env options i tasks w
  = Some (w, List.map (fun _ => {| filePath := ""; err := Some CtxErr |})
                      tasks).
Proof.
  induction tasks as [|a rest IH]; intros i w Hdone; simpl; [reflexivity|].
  unfold bind, downloadTask. rewrite Hdone. unfold ret at 1.
  rewrite (IH (S i) w Hdone). reflexivity.
Qed.

(** X6. When the deadline has passed before any task starts, no transfer
    begins: downloadAssets makes no request, writes no file and returns the
    error of the context, wrapped. *)
Theorem downloadAssets_deadline_passed assets w :
  assets <> [] ->
  0 < Concurrency options ->
  (forall j, ctxDone env j = true) ->
  downloadAssets env options assets w
  = Some (w, ([], Some (Errorf "所有资产下载失败: %w" [] (Some CtxErr)))).
Proof.
  intros Hne Hconc Hdone. unfold downloadAssets, bind, drainResults.
  destruct (Z.ltb_spec (Concurrency options) 0); [lia|].
  destruct (Z.eqb_spec (Concurrency options) 0); [lia|]. simpl.
  rewrite (runTasks_all_cancelled _ 0 w Hdone), collect_spec.
  pose proof (Permutation_length (collectionOrder_perm env assets)) as Hlen.
  destruct (collectionOrder env assets) as [|a rest].
  - destruct assets; [congruence | discriminate].
  - simpl.
    assert (Hnone : List.filter succeeded
                      (List.map (fun _ => {| filePath := "";
                                             err := Some CtxErr |}) rest)
                    = []).
    { clear. induction rest; [reflexivity | exact IHrest]. }
    rewrite Hnone. reflexivity.
Qed.

End OrchestratorPaths.

(** ** More on the asset selector *)

Section SelectorShape.

Variable env : Env.

Lemma filter_is_sublist {A} (f : A -> bool) l : sublist (List.filter f l) l.
Proof.
  induction l as [|x l IH]; simpl; [constructor|].
  destruct (f x); [apply sublist_skip | apply sublist_cons]; exact IH.
Qed.

Lemma filter_twice {A} (f : A -> bool) l :
  List.filter f (List.filter f l) = List.filter f l.
Proof.
  induction l as [|x l IH]; simpl; [reflexivity|].
  destruct (f x) eqn:Hx; simpl; rewrite ?Hx, IH; reflexivity.
Qed.

(** What getReleaseAssets returns, case by case. *)
Lemma getReleaseAssets_cases release :
  ((length (Assets release) <= 1)%nat
   /\ getReleaseAssets env release = Assets release)
  \/ ((2 <= length (Assets release))%nat
      /\ List.filter (platformMatch (GOOS env) (GOARCH env)) (Assets release)
         <> []
      /\ getReleaseAssets env release
         = List.filter (platformMatch (GOOS env) (GOARCH env))
                       (Assets release))
  \/ ((2 <= length (Assets release))%nat
      /\ List.filter (platformMatch (GOOS env) (GOARCH env)) (Assets release)
         = []
      /\ exists first rest,
           Assets release = first :: rest
           /\ getReleaseAssets env release = [first]).
Proof.
  unfold getReleaseAssets.
  destruct (Nat.leb_spec (length (Assets release)) 1) as [Hle|Hgt];
    [left; split; [exact Hle | reflexivity]|].
  right. rewrite matchAssets_filter. simpl.
  destruct (List.filter _ (Assets release)) as [|m ms] eqn:Hmatched.
  - right. split; [lia|]. split; [reflexivity|].
    destruct (Assets release) as [|first rest]; [simpl in Hgt; lia|].
    exists first, rest. split; reflexivity.
  - left. split; [lia|]. split; [discriminate | reflexivity].
Qed.

(** X7. getReleaseAssets returns assets of the release, in their order,
    and returns none only for a release without assets.  So the download of
    the source archive is chosen exactly when the release has no asset and
    the option is set, never because no asset matches the platform. *)
Theorem getReleaseAssets_sublist_and_source_fallback release :
  sublist (getReleaseAssets env release) (Assets release)
  /\ (getReleaseAssets env release = [] <-> Assets release = [])
  /\ forall options,
       shouldDownloadSource options (getReleaseAssets env release) = true
       <-> Assets release = [] /\ DownloadSource options = true.
Proof.
  assert (Hsub : sublist (getReleaseAssets env release) (Assets release)).
  { destruct (getReleaseAssets_cases release)
      as [[_ ->]|[(_ & _ & ->)|(_ & _ & first & rest & -> & ->)]].
    - reflexivity.
    - apply filter_is_sublist.
    - apply sublist_skip, sublist_nil_l. }
  assert (Hnil : getReleaseAssets env release = [] <-> Assets release = []).
  { destruct (getReleaseAssets_cases release)
      as [[_ ->]|[(Hlen & Hne & ->)|(Hlen & _ & first & rest & -> & ->)]].
    - reflexivity.
    - split; [congruence|]. intros H. rewrite H in Hlen. simpl in Hlen. lia.
    - split; discriminate. }
  split; [exact Hsub|]. split; [exact Hnil|].
  intros options. unfold shouldDownloadSource.
  rewrite andb_true_iff, Nat.eqb_eq, length_zero_iff_nil, Hnil. reflexivity.
Qed.

(** X8. Selecting twice changes nothing: getReleaseAssets returns its own
    result when it is given a release whose assets are that result. *)
Theorem getReleaseAssets_idempotent release selected :
  Assets selected = getReleaseAssets env release ->
  getReleaseAssets env selected = getReleaseAssets env release.
Proof.
  intros Hsel. rewrite <- Hsel.
  destruct (getReleaseAssets_cases selected)
    as [[_ H]|[(Hlen & Hne & H)|(Hlen & Hnone & _)]]; [exact H| |].
  - rewrite H.
    destruct (getReleaseAssets_cases release)
      as [[Hle Hid]|[(_ & _ & Hm)|(_ & _ & first & rest & _ & Hf)]].
    + rewrite Hsel, Hid in Hlen. lia.
    + rewrite Hsel, Hm. apply filter_twice.
    + rewrite Hsel, Hf in Hlen. simpl in Hlen. lia.
  - exfalso.
    destruct (getReleaseAssets_cases release)
      as [[Hle Hid]|[(_ & Hne & Hm)|(_ & _ & first & rest & _ & Hf)]].
    + rewrite Hsel, Hid in Hlen. lia.
    + rewrite Hsel, Hm, filter_twice in Hnone. congruence.
    + rewrite Hsel, Hf in Hlen. simpl in Hlen. lia.
Qed.

Lemma Contains_cons c r substr :
  Contains (String c r) substr
  = HasPrefix (String c r) substr || Contains r substr.
Proof. reflexivity. Qed.

Lemma HasPrefix_app_l : forall a s b,
  HasPrefix s (a +:+ b) = true -> HasPrefix s a = true.
Proof.
  induction a as [|c a IH]; intros s b; [reflexivity|].
  rewrite append_cons. destruct s as [|c' s]; [discriminate|].
  cbn [HasPrefix]. rewrite !andb_true_iff. intros [Hc H].
  split; [exact Hc | eapply IH, H].
Qed.

Lemma HasPrefix_app_r : forall a s b,
  HasPrefix s (a +:+ b) = true -> Contains s b = true.
Proof.
  induction a as [|c a IH]; intros s b.
  - rewrite append_nil_l. intros H.
    destruct s; cbn [Contains]; rewrite H; reflexivity.
  - rewrite append_cons. destruct s as [|c' s]; [discriminate|].
    cbn [HasPrefix]. rewrite andb_true_iff. intros [_ H].
    rewrite Contains_cons, (IH _ _ H). apply orb_true_r.
Qed.

(** A string that contains [a ++ b] contains [a] and contains [b]. *)
Lemma Contains_app_l a b : forall s,
  Contains s (a +:+ b) = true -> Contains s a = true.
Proof.
  induction s as [|c s IH].
  - cbn [Contains]. rewrite !orb_false_r. apply HasPrefix_app_l.
  - rewrite !Contains_cons, !orb_true_iff.
    intros [H|H]; [left; eapply HasPrefix_app_l, H | right; apply IH, H].
Qed.

Lemma Contains_app_r a b : forall s,
  Contains s (a +:+ b) = true -> Contains s b = true.
Proof.
  induction s as [|c s IH].
  - cbn [Contains]. rewrite orb_false_r. apply HasPrefix_app_r.
  - rewrite Contains_cons, orb_true_iff.
    intros [H|H]; [eapply HasPrefix_app_r, H|].
    rewrite Contains_cons, (IH H). apply orb_true_r.
Qed.

Lemma selected_when_matching release a :
  (2 <= length (Assets release))%nat ->
  In a (Assets release) ->
  platformMatch (GOOS env) (GOARCH env) a = true ->
  In a (getReleaseAssets env release).
Proof.
  intros Hlen Hin Hmatch.
  assert (Hfilter : In a (List.filter (platformMatch (GOOS env) (GOARCH env))
                            (Assets release))).
  { apply filter_In. split; assumption. }
  destruct (getReleaseAssets_cases release)
    as [[Hle _]|[(_ & _ & ->)|(_ & Hnone & _)]];
    [lia | exact Hfilter | rewrite Hnone in Hfilter; destruct Hfilter].
Qed.

(** X9. The alias "win" of windows is found in every name that contains
    "darwin": on Windows, getReleaseAssets selects every asset of a release
    (of two assets or more) whose lower-cased name contains "darwin" and an
    alias of the running architecture. *)
Theorem getReleaseAssets_windows_selects_darwin release a :
  GOOS env = "windows" ->
  (2 <= length (Assets release))%nat ->
  In a (Assets release) ->
  Contains (ToLower (Name a)) "darwin" = true ->
  existsb (Contains (ToLower (Name a))) (aliasesOf archMap (GOARCH env))
  = true ->
  In a (getReleaseAssets env release).
Proof.
  intros Hos Hlen Hin Hdarwin Harch.
  apply selected_when_matching; [assumption..|].
  unfold platformMatch. rewrite Hos, Harch, andb_true_r.
  change (aliasesOf osMap "windows") with ["windows"; "win"].
  cbn [existsb].
  rewrite (Contains_app_r "dar" "win" _ Hdarwin).
  rewrite orb_true_r. reflexivity.
Qed.

(** X10. The alias "x86" of 386 is found in every name that contains
    "x86_64", and the alias "arm" of arm in every name that contains
    "arm64": on these architectures getReleaseAssets selects the 64-bit
    assets of the running operating system as well. *)
Theorem getReleaseAssets_32_bit_selects_64_bit release a :
  (2 <= length (Assets release))%nat ->
  In a (Assets release) ->
  existsb (Contains (ToLower (Name a))) (aliasesOf osMap (GOOS env)) = true ->
  (GOARCH env = "386" /\ Contains (ToLower (Name a)) "x86_64" = true)
  \/ (GOARCH env = "arm" /\ Contains (ToLower (Name a)) "arm64" = true) ->
  In a (getReleaseAssets env release).
Proof.
  intros Hlen Hin Hos Harch.
  apply selected_when_matching; [assumption..|].
  unfold platformMatch. rewrite Hos. cbn [andb].
  destruct Harch as [[-> H]|[-> H]].
  - change (aliasesOf archMap "386") with ["386"; "i386"; "x86"; "32bit"].
    cbn [existsb]. rewrite (Contains_app_l "x86" "_64" _ H).
    rewrite !orb_true_r. reflexivity.
  - change (aliasesOf archMap "arm") with ["arm"; "armv5"; "armv6"; "armv7"].
    cbn [existsb]. rewrite (Contains_app_l "arm" "64" _ H). reflexivity.
Qed.

End SelectorShape.

(** ** More on extraction *)

Section ExtractionMore.

Variable env : Env.

Lemma Contains_dot_cons c s :
  Contains (String c s) "." = Ascii.eqb "." c || Contains s ".".
Proof. simpl. rewrite andb_true_r. reflexivity. Qed.

Lemma extScan_shape rev_path : forall suffix,
  Contains suffix "." = false ->
  extScan rev_path suffix = ""
  \/ exists s, extScan rev_path suffix = String "." s
               /\ Contains s "." = false.
Proof.
  induction rev_path as [|c r IH]; intros suffix Hsuffix; simpl; [auto|].
  destruct (Ascii.eqb c "/"); [auto|].
  destruct (Ascii.eqb_spec c ".") as [->|Hc]; [eauto|].
  apply IH. rewrite Contains_dot_cons, Hsuffix, orb_false_r.
  apply Ascii.eqb_neq. congruence.
Qed.

(** An extension has one dot, its first byte. *)
Lemma Ext_shape path :
  Ext path = ""
  \/ exists s, Ext path = String "." s /\ Contains s "." = false.
Proof. apply extScan_shape. reflexivity. Qed.

Lemma Ext_never_tar_gz path : ToLower (Ext path) <> ".tar.gz".
Proof.
  destruct (Ext_shape path) as [->|(s & -> & Hdot)]; [discriminate|].
  intros H.
  destruct s as [|c1 [|c2 [|c3 [|c4 s]]]]; try discriminate H.
  simpl in H. injection H as _ _ _ H4 _.
  apply lowerByte_dot in H4. subst c4.
  rewrite !Contains_dot_cons in Hdot.
  change (Ascii.eqb "." ".") with true in Hdot.
  rewrite !orb_true_r in Hdot. discriminate.
Qed.

(** X11. For a file whose lower-cased extension is not ".zip", ".tgz" or
    ".gz" (a file without extension among them), extractFile returns the
    error of the unsupported format, which carries the extension, and
    changes nothing. *)
Theorem extractFile_unsupported_format filePath w :
  ToLower (Ext filePath) <> ".zip" ->
  ToLower (Ext filePath) <> ".tgz" ->
  ToLower (Ext filePath) <> ".gz" ->
  extractFile env filePath w
  = Some (w, ("", Some (Errorf "不支持的压缩格式: %s"
                          [AStr (ToLower (Ext filePath))] None))).
Proof.
  intros Hzip Htgz Hgz.
  pose proof (Ext_never_tar_gz filePath) as Htar.
  apply String.eqb_neq in Hzip, Htgz, Hgz, Htar.
  unfold extractFile. rewrite Hzip, Htar, Htgz, Hgz. reflexivity.
Qed.

Lemma lookupNode_file (fs0 : gmap string OS.node) p d m :
  OS.lookupNode fs0 p = Some (OS.File d m) -> fs0 !! p = Some (OS.File d m).
Proof.
  unfold OS.lookupNode. destruct (OS.isRootKey p); [discriminate | exact id].
Qed.

Lemma openGzip_inv filePath w w' gz e :
  openGzip env filePath w = Some (w', (Some gz, e)) ->
  w' = w
  /\ exists data mode,
       fs w !! OS.key filePath = Some (OS.File data mode)
       /\ gzipNewReader env data = inr gz.
Proof.
  intros H. unfold openGzip, bind, osRead, ret, OS.Stat, OS.ReadFile in H.
  destruct (OS.lookupNode (fs w) (OS.key filePath)) as [[data mode|mode|t]|]
    eqn:Hlook; cbn beta iota in H; rewrite ?Hlook in H; cbn beta iota in H;
    try discriminate H.
  destruct (gzipNewReader env data) as [e'|gz'] eqn:Hgz; [discriminate H|].
  injection H as <- <- _. split; [reflexivity|].
  exists data, mode. split; [apply lookupNode_file, Hlook | exact Hgz].
Qed.

(** X12. When extractGz returns no error, the path it returns is the path
    of the archive without its extension, the file there holds exactly the
    bytes the gzip stream decompresses to, and the archive is still what it
    was.  The output is a file other than the archive. *)
Theorem extractGz_writes_decompressed filePath w w' out :
  extractGz env filePath w = Some (w', (out, None)) ->
  OS.key (TrimSuffix filePath (Ext filePath)) <> OS.key filePath ->
  out = TrimSuffix filePath (Ext filePath)
  /\ sameTraffic w w'
  /\ exists data mode0 gz mode,
       fs w !! OS.key filePath = Some (OS.File data mode0)
       /\ gzipNewReader env data = inr gz
       /\ gzErr gz = None
       /\ fs w' !! OS.key out = Some (OS.File (gzData gz) mode)
       /\ fs w' !! OS.key filePath = Some (OS.File data mode0).
Proof.
  intros Hrun Hother. unfold extractGz in Hrun. unfold bind at 1 in Hrun.
  destruct (openGzip env filePath w) as [[w1 [[gz|] [e|]]]|] eqn:Hopen;
    try discriminate Hrun.
  apply openGzip_inv in Hopen as [-> (data & mode0 & Hfile & Hgz)].
  cbn beta iota in Hrun. unfold bind at 1, os in Hrun.
  destruct (OS.Create (fs w) (TrimSuffix filePath (Ext filePath)))
    as [fs1 [e|]] eqn:Hcreate; [discriminate Hrun|].
  apply openTrunc_ok in Hcreate as [_ [mode ->]].
  cbn beta iota in Hrun. unfold ioCopy, bind in Hrun.
  match type of Hrun with
  | context [fileWrite env ?p ?d ?w1] =>
      destruct (fileWrite env p d w1) as [[w2 [e|]]|] eqn:Hwrite;
        try discriminate Hrun
  end.
  unfold bind, ret in Hrun.
  destruct (gzErr gz) eqn:Hend; [discriminate Hrun|].
  injection Hrun as <- <-.
  pose proof (fileWrite_frame _ _ _ _ _ _ Hwrite) as [Htraffic Hframe].
  eapply fileWrite_appends in Hwrite; [|simpl; apply lookup_insert_eq].
  split; [reflexivity|]. split; [exact Htraffic|].
  exists data, mode0, gz, mode. repeat split; try assumption.
  rewrite (Hframe _ (not_eq_sym Hother)). simpl.
  rewrite lookup_insert_ne by exact Hother. exact Hfile.
Qed.

(** X13. A tar stream that breaks after its last entry fails the
    extraction without undoing it: extractTarEntries leaves the disk as
    the extraction of the same entries from a sound stream does, and
    returns the error of the stream, wrapped. *)
Theorem extractTarEntries_no_rollback extractedDir headers e : forall w w',
  extractTarEntries env extractedDir headers None w = Some (w', None) ->
  extractTarEntries env extractedDir headers (Some e) w
  = Some (w', Some (Errorf "读取tar文件失败: %w" [] (Some e))).
Proof.
  induction headers as [|header rest IH]; intros w w'; simpl.
  - unfold ret. intros H. injection H as <-. reflexivity.
  - unfold bind.
    destruct (os _ w) as [[w1 [e1|]]|]; try discriminate.
    destruct (extractTarEntry env _ header w1) as [[w2 [e2|]]|];
      try discriminate.
    apply IH.
Qed.

(** X14. An entry that is a symbolic link or a hard link never fails the
    extraction: once the directory of its target path exists,
    extractTarEntries goes on with the entries that follow, whether the
    link could be made or not. *)
Theorem extractTarEntries_links_are_best_effort
  extractedDir header rest tarErr w fs1 :
  Typeflag header = TypeSymlink \/ Typeflag header = TypeLink ->
  OS.MkdirAll (fs w) (Dir (Join extractedDir (hName header))) 493
  = (fs1, None) ->
  exists w2,
    sameTraffic w w2
    /\ extractTarEntries env extractedDir (header :: rest) tarErr w
       = extractTarEntries env extractedDir rest tarErr w2.
Proof.
  intros Hlink Hmkdir. simpl. unfold bind at 1. unfold os at 1.
  rewrite Hmkdir. cbn beta iota.
  unfold extractTarEntry, bind, os.
  destruct Hlink as [-> | ->]; cbn beta iota.
  - destruct (OS.Symlink_ _ _ _) as [fs2 e2]. cbn beta iota.
    eexists. split; [|reflexivity]. split; reflexivity.
  - destruct (OS.Link _ _ _) as [fs2 e2]. cbn beta iota.
    eexists. split; [|reflexivity]. split; reflexivity.
Qed.

End ExtractionMore.

(** ** Calls that stay on the disk *)

Section OnDisk.

Variable env : Env.

Lemma sameTraffic_refl w : sameTraffic w w.
Proof. split; reflexivity. Qed.

Lemma sameTraffic_trans w1 w2 w3 :
  sameTraffic w1 w2 -> sameTraffic w2 w3 -> sameTraffic w1 w3.
Proof. intros [Hg Ha] [Hg' Ha']. split; congruence. Qed.

Lemma kt_ret {A} (a : A) : keepsTraffic (ret a).
Proof. intros w w' b H. injection H as <- _. apply sameTraffic_refl. Qed.

Lemma kt_halt {A} : keepsTraffic (@halt A).
Proof. intros w w' b H. discriminate H. Qed.

Lemma kt_bind {A B} (m : M A) (k : A -> M B) :
  keepsTraffic m -> (forall a, keepsTraffic (k a)) -> keepsTraffic (bind m k).
Proof.
  intros Hm Hk w w' b. unfold bind.
  destruct (m w) as [[w1 a]|] eqn:Hrun; [|discriminate].
  intros H. eapply sameTraffic_trans; [eapply Hm, Hrun | eapply Hk, H].
Qed.

Lemma kt_os {A} (f : gmap string OS.node -> gmap string OS.node * A) :
  keepsTraffic (os f).
Proof.
  intros w w' a. unfold os. destruct (f (fs w)) as [fs1 b].
  intros H. injection H as <- _. split; reflexivity.
Qed.

Lemma kt_osRead {A} (f : gmap string OS.node -> A) : keepsTraffic (osRead f).
Proof. intros w w' a H. injection H as <- _. apply sameTraffic_refl. Qed.

Lemma kt_fileWrite path data : keepsTraffic (fileWrite env path data).
Proof. intros w w' r H. apply fileWrite_frame in H as [H _]. exact H. Qed.

End OnDisk.

Ltac kt_step :=
  first
    [ assumption
    | apply kt_ret | apply kt_halt | apply kt_os | apply kt_osRead
    | apply kt_fileWrite
    | apply kt_bind; [|intros ?]
    | match goal with
      | |- keepsTraffic (match ?x with _ => _ end) => destruct x
      | |- keepsTraffic (if ?b then _ else _) => destruct b
      end ].

Ltac kt := repeat kt_step.

Section OnDiskFileUtil.

Variable env : Env.
Variable options : Options.

Lemma kt_ioCopy dst data srcErr : keepsTraffic (ioCopy env dst data srcErr).
Proof. unfold ioCopy. kt. Qed.

Lemma kt_extractZipFiles extractedDir files :
  keepsTraffic (extractZipFiles env extractedDir files).
Proof.
  induction files as [|f rest IH]; simpl; [kt|].
  pose proof kt_ioCopy. unfold ioCopy in *. kt.
Qed.

Lemma kt_openGzip filePath : keepsTraffic (openGzip env filePath).
Proof. unfold openGzip. kt. Qed.

Lemma kt_extractTarEntry targetPath header :
  keepsTraffic (extractTarEntry env targetPath header).
Proof. unfold extractTarEntry, ioCopy. kt. Qed.

Lemma kt_extractTarEntries extractedDir headers tarErr :
  keepsTraffic (extractTarEntries env extractedDir headers tarErr).
Proof.
  induction headers as [|header rest IH]; simpl; [kt|].
  apply kt_bind; [kt|]. intros [e|]; [kt|].
  apply kt_bind; [apply kt_extractTarEntry|]. intros [e|]; kt.
Qed.

Lemma kt_extractFile filePath : keepsTraffic (extractFile env filePath).
Proof.
  unfold extractFile. apply kt_bind; [|intros [p e]; kt].
  destruct (String.eqb _ ".zip").
  { unfold extractZip. apply kt_bind; [kt|]. intros [content [e|]]; [kt|].
    destruct (zipOpenReader env content); [kt|].
    apply kt_bind; [kt|]. intros [e|]; [kt|].
    apply kt_bind; [apply kt_extractZipFiles|]. intros [e|]; kt. }
  destruct (_ || _).
  { unfold extractTarGz. apply kt_bind; [apply kt_openGzip|].
    intros [[gz|] [e|]]; try solve [kt].
    apply kt_bind; [kt|]. intros [e|]; [kt|].
    apply kt_bind; [apply kt_extractTarEntries|]. intros [e|]; kt. }
  destruct (String.eqb _ ".gz"); [|kt].
  unfold extractGz, ioCopy. apply kt_bind; [apply kt_openGzip|].
  intros [[gz|] [e|]]; kt.
Qed.

Lemma kt_copyFile depth : forall sourcePath targetPath,
  keepsTraffic (copyFile env depth sourcePath targetPath).
Proof.
  induction depth as [|depth IH]; intros sourcePath targetPath; simpl; [kt|].
  apply kt_bind; [kt|]. intros [[[data mode|mode|target]|] [e|]];
    try solve [unfold ioCopy; kt].
  apply kt_bind; [kt|]. intros [e|]; [kt|].
  apply kt_bind; [kt|]. intros [entries [e|]]; [kt|].
  induction entries as [|entry rest IHentries]; [kt|].
  apply kt_bind; [apply IH|]. intros [e|]; [kt | exact IHentries].
Qed.

Lemma kt_moveFile sourcePath targetPath :
  keepsTraffic (moveFile env sourcePath targetPath).
Proof.
  unfold moveFile. apply kt_bind; [kt|]. intros [info e].
  destruct (negb (errIsNil e)); [kt|].
  apply kt_bind; [kt|]. intros [e0|]; [kt|].
  apply kt_bind; [kt|]. intros [info' e'].
  apply kt_bind; [destruct (errIsNil e'); kt|]. intros [e1|]; [kt|].
  apply kt_bind; [kt|]. intros [e2|]; [|kt].
  apply kt_bind; [kt|]. intros depth.
  apply kt_bind; [apply kt_copyFile|]. intros [e3|]; kt.
Qed.

Lemma kt_moveToTarget filePath :
  keepsTraffic (moveToTarget env options filePath).
Proof.
  unfold moveToTarget. destruct (_ && _); [|kt].
  apply kt_bind; [apply kt_moveFile|]. intros [e|]; kt.
Qed.


Lemma kt_updateCacheVersion owner repo tag :
  keepsTraffic (updateCacheVersion env options owner repo tag).
Proof. unfold updateCacheVersion, recordVersion, osWriteFile. kt. Qed.

Lemma kt_moveIntoDir dirPath filePaths :
  keepsTraffic (moveIntoDir env options dirPath filePaths).
Proof.
  induction filePaths as [|filePath rest IH]; simpl; [kt|].
  apply kt_bind; [apply kt_moveFile|]. intros [e|]; [exact IH|].
  apply kt_bind; [|intros; exact IH].
  destruct (AutoExtract options); [|kt].
  apply kt_bind; [apply kt_extractFile|]. intros; kt.
Qed.

(** X15. extractFile and moveFile work on the disk only: whatever they
    return, they have made no request and no API call. *)
Theorem fileutil_makes_no_request filePath sourcePath targetPath :
  keepsTraffic (extractFile env filePath)
  /\ keepsTraffic (moveFile env sourcePath targetPath).
Proof. split; [apply kt_extractFile | apply kt_moveFile]. Qed.

End OnDiskFileUtil.

(** ** Moving a file onto itself *)

Section MoveOntoItself.

Variable env : Env.
Variable options : Options.

Lemma under_refl p : OS.under p p = true.
Proof. unfold OS.under. rewrite String.eqb_refl. reflexivity. Qed.

Lemma RemoveAll_removes (fs0 : gmap string OS.node) path :
  (OS.RemoveAll fs0 path).1 !! OS.key path = None.
Proof.
  unfold OS.RemoveAll. simpl. apply map_lookup_filter_None. right.
  intros node _. simpl. rewrite under_refl. simpl. exact id.
Qed.

(** moveFile removes the target before it renames the source: when both
    paths name the same file, the file is gone before the rename and before
    the copy that is tried next, and both fail. *)
Lemma moveFile_same_file sourcePath targetPath w node :
  OS.key targetPath = OS.key sourcePath ->
  fs w !! OS.key sourcePath = Some node ->
  OS.isRootKey (OS.key sourcePath) = false ->
  OS.isDirKey (fs w) (OS.key (Dir targetPath)) = true ->
  exists w' e,
    moveFile env sourcePath targetPath w = Some (w', Some e)
    /\ fs w' !! OS.key sourcePath = None.
Proof.
  intros Hkey Hnode Hroot Hparent.
  unfold moveFile. unfold bind at 1, osRead at 1, OS.Stat, OS.lookupNode.
  rewrite Hroot, Hnode. cbn beta iota. cbn [errIsNil negb].
  unfold bind at 1, os at 1, OS.MkdirAll.
  unfold OS.isDirKey in Hparent.
  destruct (OS.lookupNode (fs w) (OS.key (Dir targetPath)))
    as [[d m|m|t]|]; try discriminate Hparent.
  cbn beta iota.
  unfold bind at 1, osRead at 1, OS.Stat, OS.lookupNode.
  cbn [fs]. rewrite Hkey, Hroot, Hnode. cbn beta iota. cbn [errIsNil].
  unfold bind at 1, os at 1. cbn [fs].
  pose proof (RemoveAll_removes (fs w) targetPath) as Hgone.
  destruct (OS.RemoveAll (fs w) targetPath) as [fs1 e1] eqn:Hremove.
  unfold OS.RemoveAll in Hremove. injection Hremove as Hfs1 <-.
  simpl in Hgone. rewrite Hkey in Hgone. cbn beta iota.
  unfold bind at 1, os at 1, OS.Rename. cbn [fs].
  rewrite Hkey, Hgone.
  assert (Hcopy : forall w1 : World,
             fs w1 = fs1 ->
             exists e,
               (depth <- osRead (fun fs => S (size fs)) ;
                e <- copyFile env depth sourcePath targetPath ;
                match e with
                | Some e => ret (Some (Errorf "复制文件失败: %w" [] (Some e)))
                | None =>
                    _ <- os (fun fs => OS.RemoveAll fs sourcePath) ;
                    ret None
                end) w1 = Some (w1, Some e)).
  { intros w1 Hw1. unfold bind at 1, osRead at 1.
    unfold bind at 1. cbn [copyFile].
    unfold bind at 1, osRead at 1, OS.Stat, OS.lookupNode.
    rewrite Hroot, Hw1, Hgone. cbn beta iota. eexists. reflexivity. }
  destruct (crossDevice env (OS.key sourcePath) (OS.key sourcePath));
    cbn beta iota.
  - match goal with
    | |- exists w' e, ?m ?w1 = _ /\ _ =>
        destruct (Hcopy w1 eq_refl) as [e He]
    end.
    rewrite He. eexists _, _. split; [reflexivity | exact Hgone].
  - match goal with
    | |- exists w' e, ?m ?w1 = _ /\ _ =>
        destruct (Hcopy w1 eq_refl) as [e He]
    end.
    rewrite He. eexists _, _. split; [reflexivity | exact Hgone].
Qed.

(** X16. moveFile called with a source and a target that name the same
    existing file (the same path up to cleaning) deletes the file and
    returns an error. *)
Theorem moveFile_onto_itself_deletes sourcePath targetPath w node :
  OS.key targetPath = OS.key sourcePath ->
  fs w !! OS.key sourcePath = Some node ->
  OS.isRootKey (OS.key sourcePath) = false ->
  OS.isDirKey (fs w) (OS.key (Dir targetPath)) = true ->
  exists w' e,
    moveFile env sourcePath targetPath w = Some (w', Some e)
    /\ fs w' !! OS.key sourcePath = None.
Proof. apply moveFile_same_file. Qed.

(** X17. The target directory is compared with the cache directory as a
    string.  When it is the cache directory written another way, so that
    the target of the move is the downloaded file itself, the move deletes
    the file, and the path of the file is returned all the same. *)
Theorem moveToTarget_into_cache_directory filePath w node :
  TargetDir options <> "" ->
  TargetDir options <> CacheDir options ->
  OS.key (Join (TargetDir options) (Base filePath)) = OS.key filePath ->
  fs w !! OS.key filePath = Some node ->
  OS.isRootKey (OS.key filePath) = false ->
  OS.isDirKey (fs w)
    (OS.key (Dir (Join (TargetDir options) (Base filePath)))) = true ->
  exists w',
    moveToTarget env options filePath w = Some (w', filePath)
    /\ fs w' !! OS.key filePath = None.
Proof.
  intros Hset Hdiff Hkey Hnode Hroot Hparent.
  unfold moveToTarget.
  apply String.eqb_neq in Hset, Hdiff. rewrite Hset, Hdiff. cbn [negb andb].
  destruct (moveFile_same_file filePath
              (Join (TargetDir options) (Base filePath)) w node
              Hkey Hnode Hroot Hparent) as (w' & e & Hmove & Hgone).
  unfold bind. rewrite Hmove. exists w'. split; [reflexivity | exact Hgone].
Qed.

End MoveOntoItself.

(** ** The version record across calls *)

Section RecordAcrossCalls.

Variable env : Env.
Variable options : Options.

(** The record that has just been written passes the test. *)
Lemma version_record_read_back_helper owner repo tag w w' :
  recordVersion env options owner repo tag w = Some (w', None) ->
  cachedVersionIs options owner repo tag (fs w') = true.
Proof.
  unfold recordVersion. intros Hwrite.
  apply osWriteFile_ok in Hwrite as [Hroot [mode Hfile]].
  apply cachedVersionIs_true. exists mode.
  unfold OS.lookupNode. rewrite Hroot. exact Hfile.
Qed.

(** X18. The name of the record is <owner>-<repo>-version.txt, so that
    (a-b, c) and (a, b-c) have one record between them: once the tag of a
    release of the one is recorded, the test on the record succeeds for the
    other with the same tag. *)
Theorem version_record_shared_across_repositories a b c tag w w' :
  recordVersion env options (a +:+ "-" +:+ b) c tag w = Some (w', None) ->
  cacheVersionPath options (a +:+ "-" +:+ b) c
  = cacheVersionPath options a (b +:+ "-" +:+ c)
  /\ cachedVersionIs options a (b +:+ "-" +:+ c) tag (fs w') = true.
Proof.
  intros Hwrite.
  assert (Hpath : cacheVersionPath options (a +:+ "-" +:+ b) c
                  = cacheVersionPath options a (b +:+ "-" +:+ c)).
  { unfold cacheVersionPath. rewrite !append_assoc. reflexivity. }
  split; [exact Hpath|].
  unfold recordVersion in Hwrite.
  apply osWriteFile_ok in Hwrite as [Hroot [mode Hfile]].
  apply cachedVersionIs_true. exists mode. rewrite <- Hpath.
  unfold OS.lookupNode. rewrite Hroot. exact Hfile.
Qed.

(** X19. A download of the latest release that ends with its record
    written makes the next call a short one: as long as the release is the
    latest one, DownloadLatestRelease fetches nothing, leaves the files as
    they are, and returns <cacheDir>/<owner>-<repo>, whatever path the
    first call returned. *)
Theorem DownloadLatestRelease_twice
  owner repo release w w1 w2 w3 w4 w5 downloaded extracted placed :
  CheckLatest options = true ->
  getLatestRelease env owner repo w = Some (w1, (Some release, None)) ->
  cachedVersionIs options owner repo (TagName release) (fs w1) = false ->
  shouldDownloadSource options (getReleaseAssets env release) = false ->
  downloadAssets env options (getReleaseAssets env release) w1
  = Some (w2, ([downloaded], None)) ->
  autoExtract env options downloaded w2 = Some (w3, extracted) ->
  moveToTarget env options extracted w3 = Some (w4, placed) ->
  recordVersion env options owner repo (TagName release) w4
  = Some (w5, None) ->
  GetLatestRelease env (apiCalls w5) owner repo = ApiRelease release ->
  DownloadLatestRelease env options owner repo w = Some (w5, (placed, None))
  /\ DownloadLatestRelease env options owner repo w5
     = Some (afterApiCall w5,
             (Join (CacheDir options) (owner +:+ "-" +:+ repo), None)).
Proof.
  intros Hcheck Hlatest Hstale Hsource Hget Hextract Hmove Hrecord Hagain.
  split.
  - unfold DownloadLatestRelease.
    unfold bind at 1. rewrite Hlatest. cbn beta iota.
    unfold deref. unfold bind at 1. unfold ret at 1.
    unfold bind at 1. rewrite Hcheck. unfold osRead at 1. rewrite Hstale.
    rewrite Hsource. unfold bind at 1. rewrite Hget. cbn beta iota.
    unfold bind at 1. rewrite Hextract.
    unfold bind at 1. rewrite Hmove.
    unfold bind at 1. unfold updateCacheVersion. rewrite Hcheck.
    unfold bind at 1. rewrite Hrecord. reflexivity.
  - apply (DownloadLatestRelease_up_to_date env options owner repo w5 release);
      [assumption..|].
    eapply version_record_read_back_helper, Hrecord.
Qed.

End RecordAcrossCalls.

(** ** The public operations, end to end *)

Section EndToEnd.

Variable env : Env.
Variable options : Options.

Lemma getReleaseByTag_failed owner repo tag w status e :
  GetReleaseByTag env (apiCalls w) owner repo tag = ApiFailure status e ->
  getReleaseByTag env owner repo tag w
  = Some (afterApiCall w,
          (None,
           Some (if is404 status
                 then Errorf "仓库 %s/%s 中没有Tag为 %s 的Release"
                        [AStr owner; AStr repo; AStr tag] None
                 else Errorf "通过Tag获取Release失败: %w" [] (Some e)))).
Proof.
  intros Hreply. unfold getReleaseByTag, bind, githubByTag.
  rewrite Hreply. destruct (is404 status); reflexivity.
Qed.

Lemma getLatestRelease_failed_with owner repo w status e :
  GetLatestRelease env (apiCalls w) owner repo = ApiFailure status e ->
  getLatestRelease env owner repo w
  = Some (afterApiCall w,
          (None,
           Some (if is404 status
                 then Errorf "仓库 %s/%s 没有Release"
                        [AStr owner; AStr repo] None
                 else Errorf "获取最新Release失败: %w" [] (Some e)))).
Proof.
  intros Hreply. unfold getLatestRelease, bind, githubLatest.
  rewrite Hreply. destruct (is404 status); reflexivity.
Qed.

(** X20. A release that cannot be resolved ends the operation at once:
    DownloadLatestRelease, IsLatestVersion and DownloadSpecificRelease
    return the error of the lookup after the one API call, and have fetched
    and written nothing.  The error of a 404 answer names the repository
    (and the tag) and wraps nothing; any other error is wrapped. *)
Theorem unresolved_release_ends_the_operation owner repo tag current w status e :
  (GetLatestRelease env (apiCalls w) owner repo = ApiFailure status e ->
   let failure :=
     if is404 status
     then Errorf "仓库 %s/%s 没有Release" [AStr owner; AStr repo] None
     else Errorf "获取最新Release失败: %w" [] (Some e) in
   DownloadLatestRelease env options owner repo w
   = Some (afterApiCall w, ("", Some failure))
   /\ IsLatestVersion env owner repo current w
      = Some (afterApiCall w, (false, Some failure)))
  /\ (GetReleaseByTag env (apiCalls w) owner repo tag = ApiFailure status e ->
      DownloadSpecificRelease env options owner repo tag w
      = Some (afterApiCall w,
              ("", Some (if is404 status
                         then Errorf "仓库 %s/%s 中没有Tag为 %s 的Release"
                                [AStr owner; AStr repo; AStr tag] None
                         else Errorf "通过Tag获取Release失败: %w" []
                                (Some e))))).
Proof.
  split.
  - intros Hreply failure. split.
    + unfold DownloadLatestRelease, bind.
      rewrite (getLatestRelease_failed_with _ _ _ _ _ Hreply). reflexivity.
    + unfold IsLatestVersion, getLatestTagName, bind.
      rewrite (getLatestRelease_failed_with _ _ _ _ _ Hreply). reflexivity.
  - intros Hreply. unfold DownloadSpecificRelease, bind.
    rewrite (getReleaseByTag_failed _ _ _ _ _ _ Hreply). reflexivity.
Qed.

Lemma downloadAssets_nil w :
  0 <= Concurrency options ->
  downloadAssets env options [] w = Some (w, ([], None)).
Proof.
  intros Hconc. unfold downloadAssets, bind, drainResults.
  destruct (Z.ltb_spec (Concurrency options) 0); [lia|].
  rewrite andb_false_r.
  pose proof (Permutation_length (collectionOrder_perm env [])) as Hlen.
  destruct (collectionOrder env []); [reflexivity | discriminate].
Qed.

Lemma not_up_to_date owner repo tag w :
  CheckLatest options && cachedVersionIs options owner repo tag (fs w)
  = false ->
  (upToDate <-
     (if CheckLatest options
      then osRead (cachedVersionIs options owner repo tag)
      else ret false) ;
   ret upToDate) w = Some (w, false).
Proof.
  intros Hstale. unfold bind, osRead, ret.
  destruct (CheckLatest options); [|reflexivity].
  simpl in Hstale. rewrite Hstale. reflexivity.
Qed.

(** X21. A release without assets, with the download of the source
    disabled: DownloadLatestRelease fetches nothing and returns the
    directory <cacheDir>/<owner>-<repo>-<tag> of the release (or the
    directory it has been moved to), which it has made, with no error
    unless the directory cannot be made. *)
Theorem DownloadLatestRelease_no_asset_no_source owner repo w release :
  GetLatestRelease env (apiCalls w) owner repo = ApiRelease release ->
  Assets release = [] ->
  DownloadSource options = false ->
  0 <= Concurrency options ->
  CheckLatest options
  && cachedVersionIs options owner repo (TagName release) (fs w) = false ->
  exists w' r,
    DownloadLatestRelease env options owner repo w = Some (w', r)
    /\ gets w' = gets w
    /\ ((exists e, r = ("", Some (Errorf "创建目录失败: %w" [] (Some e))))
        \/ (exists p,
              r = (p, None)
              /\ placedAt options
                   (releaseDir options owner repo (TagName release)) p)).
Proof.
  intros Hreply Hassets Hsource Hconc Hstale.
  assert (Hselected : getReleaseAssets env release = []).
  { unfold getReleaseAssets. rewrite Hassets. reflexivity. }
  set (tail :=
         e <- os (fun fs => OS.MkdirAll fs
                    (releaseDir options owner repo (TagName release)) 493) ;
         match e with
         | Some e => ret ("", Some (Errorf "创建目录失败: %w" [] (Some e)))
         | None =>
             _ <- moveIntoDir env options
                    (releaseDir options owner repo (TagName release)) [] ;
             dirPath <- moveToTarget env options
                          (releaseDir options owner repo (TagName release)) ;
             _ <- updateCacheVersion env options owner repo
                    (TagName release) ;
             ret (dirPath, None)
         end).
  assert (Hrun : DownloadLatestRelease env options owner repo w
                 = tail (afterApiCall w)).
  { unfold DownloadLatestRelease.
    unfold bind at 1. rewrite (getLatestRelease_found _ _ _ _ _ Hreply).
    cbn beta iota. unfold deref. unfold bind at 1. unfold ret at 1.
    pose proof (not_up_to_date owner repo (TagName release) (afterApiCall w)
                  Hstale) as Hcheck.
    unfold bind at 1. unfold bind in Hcheck.
    destruct ((if CheckLatest options
               then osRead (cachedVersionIs options owner repo
                              (TagName release))
               else ret false) _) as [[w1 upToDate]|]; [|discriminate].
    unfold ret in Hcheck. injection Hcheck as -> ->.
    rewrite Hselected. unfold shouldDownloadSource. rewrite Hsource.
    cbn [length Nat.eqb andb].
    unfold bind at 1. rewrite (downloadAssets_nil _ Hconc). reflexivity. }
  destruct (several_files_end env options owner repo (TagName release) []
              (updateCacheVersion env options owner repo (TagName release))
              (returns_updateCacheVersion _ _ _ _ _) (afterApiCall w))
    as (w' & r & Hend & Hr).
  fold tail in Hend.
  exists w', r. split; [congruence|]. split; [|exact Hr].
  assert (Hkeeps : keepsTraffic tail).
  { unfold tail. apply kt_bind; [kt|]. intros [e|]; [kt|].
    apply kt_bind; [apply kt_moveIntoDir|]. intros _.
    apply kt_bind; [apply kt_moveToTarget|]. intros p.
    apply kt_bind; [apply kt_updateCacheVersion|]. intros _. kt. }
  apply Hkeeps in Hend as [Hg _]. exact Hg.
Qed.


(** X23. A release without assets, with the download of the source
    enabled: DownloadLatestRelease does what DownloadSourceCode does for
    the tag of the release, after the one API call of the lookup. *)
Theorem DownloadLatestRelease_falls_back_to_source owner repo w release :
  GetLatestRelease env (apiCalls w) owner repo = ApiRelease release ->
  Assets release = [] ->
  DownloadSource options = true ->
  CheckLatest options
  && cachedVersionIs options owner repo (TagName release) (fs w) = false ->
  DownloadLatestRelease env options owner repo w
  = DownloadSourceCode env options owner repo (TagName release)
      (afterApiCall w).
Proof.
  intros Hreply Hassets Hsource Hstale.
  unfold DownloadLatestRelease.
  unfold bind at 1. rewrite (getLatestRelease_found _ _ _ _ _ Hreply).
  cbn beta iota. unfold deref. unfold bind at 1. unfold ret at 1.
  pose proof (not_up_to_date owner repo (TagName release) (afterApiCall w)
                Hstale) as Hcheck.
  unfold bind at 1. unfold bind in Hcheck.
  destruct ((if CheckLatest options
             then osRead (cachedVersionIs options owner repo
                            (TagName release))
             else ret false) _) as [[w1 upToDate]|]; [|discriminate].
  unfold ret in Hcheck. injection Hcheck as -> ->.
  unfold getReleaseAssets, shouldDownloadSource.
  rewrite Hassets, Hsource. reflexivity.
Qed.

End EndToEnd.

(** ** More worked examples *)

Section MoreExamples.

Import Demo.

Lemma downloadWithBuffer_stores_received_witness :
  exists w',
    downloadWithBuffer envMixed opts "https://dl/app" "/cache/app" worldFiles
    = Some (w', None)
    /\ exists resp mode,
         httpGet envMixed (length (gets worldFiles)) "https://dl/app"
         = inr resp
         /\ StatusCode resp = 200
         /\ fs w' !! OS.key "/cache/app"
            = Some (OS.File
                      (received (if BufferSize opts =? 0 then []
                                 else Body resp)) mode)
         /\ sameElsewhere (OS.key "/cache/app") (fs worldFiles) (fs w').
Proof.
  eexists. split; [vm_compute; reflexivity|].
  eapply (downloadWithBuffer_stores_received envMixed opts).
  vm_compute. reflexivity.
Defined.

Lemma downloadWithBuffer_failure_leaves_empty_file_witness :
  exists w' e mode,
    downloadWithBuffer envMixed opts "https://dl/missing" "/cache/app"
      worldFiles
    = Some (w', Some e)
    /\ fs w' !! OS.key "/cache/app" = Some (OS.File "" mode).
Proof.
  eapply (downloadWithBuffer_failure_leaves_empty_file envMixed opts).
  - vm_compute. reflexivity.
  - intros resp H. vm_compute in H. injection H as <-. discriminate.
Defined.

Lemma downloadWithBuffer_zero_buffer_witness :
  exists w' mode,
    downloadWithBuffer envMixed (optsWith 5 0 "" true) "https://dl/app"
      "/cache/app" worldFiles
    = Some (w', None)
    /\ fs w' !! OS.key "/cache/app" = Some (OS.File "" mode).
Proof.
  eapply (downloadWithBuffer_zero_buffer envMixed (optsWith 5 0 "" true)
            "https://dl/app" "/cache/app" worldFiles _ (response "ELF" 200));
    vm_compute; reflexivity.
Defined.

Lemma downloadAssets_returns_cache_paths_witness :
  exists w' paths,
    downloadAssets envMixed opts [asset "tool"; asset "missing"] world0
    = Some (w', (paths, None))
    /\ (length paths <= 2)%nat
    /\ forall p,
         In p paths ->
         exists a, In a [asset "tool"; asset "missing"]
                   /\ p = Join (CacheDir opts) (Name a).
Proof.
  eexists _, _. split; [vm_compute; reflexivity|].
  eapply (downloadAssets_returns_cache_paths envMixed opts
            [asset "tool"; asset "missing"] world0).
  vm_compute. reflexivity.
Defined.


Lemma downloadAssets_deadline_passed_witness :
  downloadAssets envLate opts [asset "tool"; asset "other"] world0
  = Some (world0, ([], Some (Errorf "所有资产下载失败: %w" [] (Some CtxErr)))).
Proof.
  apply (downloadAssets_deadline_passed envLate opts);
    [discriminate | reflexivity | reflexivity].
Defined.

Lemma getReleaseAssets_idempotent_witness :
  getReleaseAssets envMixed
    (releaseOf ["tool-linux-amd64"; "tool-linux-x86_64.sha256"])
  = getReleaseAssets envMixed
      (releaseOf ["tool-darwin-arm64"; "tool-linux-amd64";
                  "tool-linux-x86_64.sha256"]).
Proof.
  apply (getReleaseAssets_idempotent envMixed). vm_compute. reflexivity.
Defined.

Lemma getReleaseAssets_windows_selects_darwin_witness :
  In (asset "tool-darwin-amd64")
     (getReleaseAssets (onPlatform "windows" "amd64" envMixed)
        (releaseOf ["tool-darwin-amd64"; "tool-linux-amd64"])).
Proof.
  apply (getReleaseAssets_windows_selects_darwin
           (onPlatform "windows" "amd64" envMixed));
    [reflexivity | simpl; lia | left; reflexivity
     | vm_compute; reflexivity | vm_compute; reflexivity].
Defined.

Lemma getReleaseAssets_32_bit_selects_64_bit_witness :
  In (asset "tool-linux-x86_64")
     (getReleaseAssets (onPlatform "linux" "386" envMixed)
        (releaseOf ["tool-linux-x86_64"; "tool-darwin-arm64"])).
Proof.
  apply (getReleaseAssets_32_bit_selects_64_bit
           (onPlatform "linux" "386" envMixed));
    [simpl; lia | left; reflexivity | vm_compute; reflexivity|].
  left. split; [reflexivity | vm_compute; reflexivity].
Defined.

Lemma extractFile_unsupported_format_witness :
  extractFile envOK "/cache/README" worldFiles
  = Some (worldFiles,
          ("", Some (Errorf "不支持的压缩格式: %s"
                       [AStr (ToLower (Ext "/cache/README"))] None))).
Proof.
  apply (extractFile_unsupported_format envOK); vm_compute; discriminate.
Defined.

Lemma extractGz_writes_decompressed_witness :
  exists w' out,
    extractGz envOK "/cache/notes.gz" worldFiles = Some (w', (out, None))
    /\ out = "/cache/notes"
    /\ fs w' !! "/cache/notes" = Some (OS.File "hello" 438).
Proof.
  eexists _, _. split; [vm_compute; reflexivity|].
  destruct (extractGz_writes_decompressed envOK "/cache/notes.gz" worldFiles
              _ _ eq_refl) as (Hout & _ & _);
    [vm_compute; discriminate|].
  split; [exact Hout | vm_compute; reflexivity].
Defined.

Lemma extractTarEntries_no_rollback_witness :
  exists w',
    extractTarEntries envTar "/cache/app"
      (tarEntries (tarOf {| gzData := "TAR"; gzErr := None |})) None world0
    = Some (w', None)
    /\ extractTarEntries envTar "/cache/app"
         (tarEntries (tarOf {| gzData := "TAR"; gzErr := None |}))
         (Some (LibErr "unexpected EOF" 0)) world0
       = Some (w', Some (Errorf "读取tar文件失败: %w" []
                           (Some (LibErr "unexpected EOF" 0)))).
Proof.
  eexists. split; [vm_compute; reflexivity|].
  apply (extractTarEntries_no_rollback envTar). vm_compute. reflexivity.
Defined.

Lemma extractTarEntries_links_are_best_effort_witness :
  exists w2,
    sameTraffic worldFiles w2
    /\ extractTarEntries envTar "/cache"
         [ {| hName := "app"; Typeflag := TypeSymlink; Linkname := "other";
              hMode := 511; hData := ""; hDataErr := None |} ]
         None worldFiles
       = extractTarEntries envTar "/cache" [] None w2.
Proof.
  eapply (extractTarEntries_links_are_best_effort envTar);
    [left; reflexivity | vm_compute; reflexivity].
Defined.

Lemma fileutil_makes_no_request_witness :
  exists w' r,
    extractFile envTar "/cache/app.tar.gz" worldArchives = Some (w', r)
    /\ sameTraffic worldArchives w'.
Proof.
  eexists _, _. split; [vm_compute; reflexivity|].
  eapply (proj1 (fileutil_makes_no_request envTar "/cache/app.tar.gz"
                   "" "")).
  vm_compute. reflexivity.
Defined.

Lemma moveFile_onto_itself_deletes_witness :
  exists w' e,
    moveFile envOK "/cache/app" "/cache//app" worldFiles = Some (w', Some e)
    /\ fs w' !! OS.key "/cache/app" = None.
Proof.
  eapply (moveFile_onto_itself_deletes envOK); vm_compute; reflexivity.
Defined.

Lemma moveToTarget_into_cache_directory_witness :
  exists w',
    moveToTarget envOK (optsWith 5 8 "/cache/" true) "/cache/app" worldFiles
    = Some (w', "/cache/app")
    /\ fs w' !! OS.key "/cache/app" = None.
Proof.
  eapply (moveToTarget_into_cache_directory envOK
            (optsWith 5 8 "/cache/" true));
    first [discriminate | vm_compute; reflexivity].
Defined.

Lemma version_record_shared_across_repositories_witness :
  exists w',
    recordVersion envOK opts ("rust" +:+ "-" +:+ "lang") "x" "v1" world0
    = Some (w', None)
    /\ cachedVersionIs opts "rust" ("lang" +:+ "-" +:+ "x") "v1" (fs w')
       = true.
Proof.
  eexists. split; [vm_compute; reflexivity|].
  eapply proj2,
    (version_record_shared_across_repositories envOK opts
       "rust" "lang" "x" "v1" world0).
  vm_compute. reflexivity.
Defined.

Lemma DownloadLatestRelease_twice_witness :
  exists w5,
    DownloadLatestRelease envOK opts "o" "r" world0
    = Some (w5, ("/cache/app.tgz", None))
    /\ DownloadLatestRelease envOK opts "o" "r" w5
       = Some (afterApiCall w5,
               (Join (CacheDir opts) ("o" +:+ "-" +:+ "r"), None)).
Proof.
  eexists.
  eapply (DownloadLatestRelease_twice envOK opts "o" "r"
            (releaseOf ["app.tgz"]) world0);
    vm_compute; reflexivity.
Defined.

Lemma unresolved_release_ends_the_operation_witness :
  DownloadLatestRelease envNoRelease opts "o" "r" world0
  = Some (afterApiCall world0,
          ("", Some (Errorf "仓库 %s/%s 没有Release"
                       [AStr "o"; AStr "r"] None)))
  /\ DownloadSpecificRelease envNoRelease opts "o" "r" "v9" world0
     = Some (afterApiCall world0,
             ("", Some (Errorf "仓库 %s/%s 中没有Tag为 %s 的Release"
                          [AStr "o"; AStr "r"; AStr "v9"] None))).
Proof.
  destruct (unresolved_release_ends_the_operation envNoRelease opts
              "o" "r" "v9" "v1" world0 (Some 404)
              (LibErr "github: 404 Not Found" 404)) as [Hlatest Hspecific].
  split.
  - apply Hlatest. reflexivity.
  - apply Hspecific. reflexivity.
Defined.

Lemma DownloadLatestRelease_no_asset_no_source_witness :
  exists w' r,
    DownloadLatestRelease envSource (optsWith 5 8 "" false) "o" "r" world0
    = Some (w', r)
    /\ gets w' = gets world0
    /\ ((exists e, r = ("", Some (Errorf "创建目录失败: %w" [] (Some e))))
        \/ (exists p,
              r = (p, None)
              /\ placedAt (optsWith 5 8 "" false)
                   (releaseDir (optsWith 5 8 "" false) "o" "r"
                      (TagName (releaseOf []))) p)).
Proof.
  apply (DownloadLatestRelease_no_asset_no_source envSource
           (optsWith 5 8 "" false) "o" "r" world0 (releaseOf []));
    vm_compute; first [reflexivity | discriminate].
Defined.


Lemma DownloadLatestRelease_falls_back_to_source_witness :
  DownloadLatestRelease envSource opts "o" "r" world0
  = DownloadSourceCode envSource opts "o" "r" (TagName (releaseOf []))
      (afterApiCall world0).
Proof.
  apply (DownloadLatestRelease_falls_back_to_source envSource opts
           "o" "r" world0 (releaseOf []));
    vm_compute; reflexivity.
Defined.

End MoreExamples.
